(** * Windows OS-mount tools (coriolis/osmorphing/osmount/windows.py)

    A shallow embedding of [WindowsMountTools] and the properties of its
    disk-servicing pass, its mount / dismount sequence and its OS probe.

    Python text is modelled by [string]; a character is an 8-bit code
    point (the Latin-1 range of Unicode).  Every call that goes through
    the remote session, every [time.sleep] and every [LOG] call is
    recorded, in order, in the trace a computation returns. *)

From Stdlib Require Import List String Ascii Bool Arith Lia.
Import ListNotations.
Open Scope string_scope.
Open Scope list_scope.

(** Text concatenation. *)
Infix "+++" := String.append (right associativity, at level 60).

(** ** Python text primitives *)

Module PyStr.

Definition chr (n : nat) : string := String (ascii_of_nat n) EmptyString.

Definition CR : ascii := ascii_of_nat 13.
Definition LF : ascii := ascii_of_nat 10.
(** The two-character text written backslash-r backslash-n in the source. *)
Definition CRLF : string := String CR (String LF EmptyString).
(** One double-quote character. *)
Definition DQ : string := chr 34.

Definition between (lo hi n : nat) : bool := Nat.leb lo n && Nat.leb n hi.

(** [str.isspace] on one character, which is also what the pattern
    class backslash-s accepts for text patterns. *)
Definition isspace (c : ascii) : bool :=
  let n := nat_of_ascii c in
  between 9 13 n || between 28 32 n || Nat.eqb n 133 || Nat.eqb n 160.

(** The pattern class [[0-9]]. *)
Definition isdigit09 (c : ascii) : bool := between 48 57 (nat_of_ascii c).

(** One character of [str.isnumeric]: the decimal digits and, in the
    Latin-1 range, the superscript digits and the vulgar fractions. *)
Definition isnumeric_char (c : ascii) : bool :=
  let n := nat_of_ascii c in
  between 48 57 n || Nat.eqb n 178 || Nat.eqb n 179 || Nat.eqb n 185 || between 188 190 n.

Fixpoint forallb_str (p : ascii -> bool) (s : string) : bool :=
  match s with
  | EmptyString => true
  | String c s' => p c && forallb_str p s'
  end.

(** [s.isnumeric()]: at least one character, all of them numeric. *)
Definition isnumeric (s : string) : bool :=
  match s with
  | EmptyString => false
  | _ => forallb_str isnumeric_char s
  end.

(** Truth value of a text: non-empty. *)
Definition truthy (s : string) : bool :=
  match s with EmptyString => false | _ => true end.

Definition snoc (s : string) (c : ascii) : string := s +++ String c EmptyString.

(** [s[:-1]]: all but the last character; the empty text stays empty. *)
Fixpoint drop_last (s : string) : string :=
  match s with
  | EmptyString => EmptyString
  | String c s' =>
      match s' with
      | EmptyString => EmptyString
      | _ => String c (drop_last s')
      end
  end.

Fixpoint skipn_str (n : nat) (s : string) : string :=
  match n, s with
  | S k, String _ s' => skipn_str k s'
  | _, _ => s
  end.

Fixpoint firstn_str (n : nat) (s : string) : string :=
  match n, s with
  | S k, String c s' => String c (firstn_str k s')
  | _, _ => EmptyString
  end.

(** Left-to-right scan of [s.split(sep)] for a non-empty [sep]:
    [skip] counts the characters of a separator occurrence that are still
    to be passed over, [cur] is the piece read so far. *)
Fixpoint split_go (sep : string) (skip : nat) (cur : string) (s : string)
  : list string :=
  match s with
  | EmptyString => [cur]
  | String c s' =>
      match skip with
      | S k => split_go sep k cur s'
      | O =>
          if prefix sep s
          then cur :: split_go sep (String.length sep - 1) EmptyString s'
          else split_go sep 0 (snoc cur c) s'
      end
  end.

(** [s.split(sep)]; [None] stands for the ValueError that Python raises
    on an empty separator. *)
Definition split (s sep : string) : option (list string) :=
  match sep with
  | EmptyString => None
  | _ => Some (split_go sep 0 EmptyString s)
  end.

(** Line boundaries of [str.splitlines] in the 8-bit range. *)
Definition is_linebreak (c : ascii) : bool :=
  let n := nat_of_ascii c in
  between 10 13 n || between 28 30 n || Nat.eqb n 133.

Fixpoint splitlines_go (cur : string) (s : string) : list string :=
  match s with
  | EmptyString => if truthy cur then [cur] else []
  | String c s' =>
      if is_linebreak c then
        match s' with
        | String c2 s'' =>
            if Ascii.eqb c CR && Ascii.eqb c2 LF
            then cur :: splitlines_go EmptyString s''
            else cur :: splitlines_go EmptyString s'
        | EmptyString => cur :: splitlines_go EmptyString s'
        end
      else splitlines_go (snoc cur c) s'
  end.

(** [s.splitlines()]. *)
Definition splitlines (s : string) : list string := splitlines_go EmptyString s.

Fixpoint split_ws_go (cur : string) (s : string) : list string :=
  match s with
  | EmptyString => if truthy cur then [cur] else []
  | String c s' =>
      if isspace c
      then (if truthy cur then [cur] else []) ++ split_ws_go EmptyString s'
      else split_ws_go (snoc cur c) s'
  end.

(** [s.split()] without argument: the maximal runs of non-blank characters. *)
Definition split_ws (s : string) : list string := split_ws_go EmptyString s.

(** [fmt % arg] for one text argument, over templates that use only the
    conversions percent-s and percent-percent, as the templates of the
    source do.  On such a template [None] stands for the TypeError or
    ValueError of Python: no percent-s at all, more than one, or a percent
    sign at the end.  A template with any other conversion is outside the
    model (it gives [None] too, whatever Python does with it).  [used]
    tells whether the argument has been consumed. *)
Fixpoint format_go (used : bool) (arg : string) (fmt : string) : option string :=
  match fmt with
  | EmptyString => if used then Some EmptyString else None
  | String c rest =>
      if Ascii.eqb c "%"%char then
        match rest with
        | String d rest' =>
            if Ascii.eqb d "s"%char then
              if used then None
              else option_map (fun t => arg +++ t) (format_go true arg rest')
            else if Ascii.eqb d "%"%char then
              option_map (String "%"%char) (format_go used arg rest')
            else None
        | EmptyString => None
        end
      else option_map (String c) (format_go used arg rest)
  end.

Definition format1 (fmt arg : string) : option string := format_go false arg fmt.

(** [x in xs] for a list of texts. *)
Definition mem (x : string) (xs : list string) : bool := existsb (String.eqb x) xs.

End PyStr.

(** ** Patterns of the [re] module

    Only the constructs that the disk-entry pattern uses: literal text,
    a character class, concatenation, the greedy [+] and a capturing
    group.  [run r s] lists, in the order in which a backtracking matcher
    tries them, the ways in which [r] matches a prefix of [s]: the texts
    captured by the groups and the text that is left. *)

Module Re.
Import PyStr.

Inductive regex : Type :=
| Lit (s : string)
| Cls (p : ascii -> bool)
| Seq (a b : regex)
| Plus (a : regex)
| Group (a : regex).

Definition attempt : Type := (list string * string)%type.

Definition consumed (s rest : string) : string :=
  firstn_str (String.length s - String.length rest) s.

(** Greedy repetition of a one-step matcher [step]: after a step that
    consumed something, further rounds are tried first, then the step is
    taken as the last one. *)
Fixpoint plus_go (step : string -> list attempt) (fuel : nat) (s : string)
  : list attempt :=
  flat_map
    (fun a : attempt =>
       let (c1, s1) := a in
       (match fuel with
        | S k =>
            if Nat.ltb (String.length s1) (String.length s)
            then plus_go step k s1
            else []
        | O => []
        end) ++ [(c1, s1)])
    (step s).

Fixpoint run (r : regex) (s : string) : list attempt :=
  match r with
  | Lit l =>
      if prefix l s then [([], skipn_str (String.length l) s)] else []
  | Cls p =>
      match s with
      | String c s' => if p c then [([], s')] else []
      | EmptyString => []
      end
  | Seq a b =>
      flat_map
        (fun x : attempt =>
           let (c1, s1) := x in
           map (fun y : attempt => let (c2, s2) := y in (c1 ++ c2, s2)) (run b s1))
        (run a s)
  | Plus a => plus_go (run a) (String.length s) s
  | Group a =>
      map (fun x : attempt => let (c, s1) := x in (consumed s s1 :: c, s1)) (run a s)
  end.

(** [re.match(pattern, s)]: the first successful attempt, as the list of
    its groups; [None] when the pattern matches no prefix of [s]. *)
Definition re_match (r : regex) (s : string) : option (list string) :=
  match run r s with
  | [] => None
  | (groups, _) :: _ => Some groups
  end.

(** [m.group(1)]. *)
Definition group1 (groups : list string) : string := hd EmptyString groups.

End Re.

(** ** Exceptions, events and the computation monad *)

(** Modelled from the spec: the exception classes of the module
    coriolis.exception, which is not part of the sources at hand.  The
    remote shell fails with a typed remote-execution error that tells
    not-authorized from every other failure; the error of a missing OS
    root is one more class of the same family.  [PyException] stands for
    any exception outside that family. *)
Inductive exn_class : Type :=
| PyException
| CoriolisException
| NotAuthorized
| OperatingSystemNotFound.

Record exn : Type := mk_exn { exn_cls : exn_class; exn_msg : string }.

(** [issubclass]: every class derives from [PyException], the two named
    errors derive from [CoriolisException]. *)
Definition subclass (c d : exn_class) : bool :=
  match d, c with
  | PyException, _ => true
  | CoriolisException, (CoriolisException | NotAuthorized | OperatingSystemNotFound) => true
  | NotAuthorized, NotAuthorized => true
  | OperatingSystemNotFound, OperatingSystemNotFound => true
  | _, _ => false
  end.

Definition isinstance (e : exn) (c : exn_class) : bool := subclass (exn_cls e) c.

Inductive level : Type := LvlDebug | LvlInfo | LvlWarn.

(** An argument of a log record; records are kept unrendered. *)
Inductive logarg : Type :=
| AStr (s : string)
| AList (l : list string)
| AExn (e : exn).

Inductive event : Type :=
| EvExec (cmd : string) (r : exn + string)
| EvWrite (path data : string) (r : exn + unit)
| EvTestPath (path : string) (r : exn + bool)
| EvSleep (seconds : nat)
| EvLog (lvl : level) (fmt : string) (args : list logarg).

Definition trace : Type := list event.

(** The remote session and the other sources of effects: the three
    operations of the connection object, its line ending, and the random
    identifier generator. *)
Record Machine : Type := mk_machine {
  World : Type;
  conn_exec_ps_command : string -> World -> (exn + string) * World;
  conn_write_file : string -> string -> World -> (exn + unit) * World;
  conn_test_path : string -> World -> (exn + bool) * World;
  conn_EOL : string;
  uuid4 : World -> string * World
}.

Section Monad.
Context {m : Machine}.

(** A computation: from a state of the world to a value or a raised
    exception, the new state, and the events of the run. *)
Definition Comp (A : Type) : Type := World m -> (exn + A) * World m * trace.
Local Abbreviation M := Comp.

Definition ret {A} (a : A) : M A := fun w => (inr a, w, []).

Definition raise {A} (e : exn) : M A := fun w => (inl e, w, []).

Definition bind {A B} (c : M A) (k : A -> M B) : M B :=
  fun w =>
    match c w with
    | (inl e, w1, t1) => (inl e, w1, t1)
    | (inr a, w1, t1) =>
        match k a w1 with
        | (r, w2, t2) => (r, w2, t1 ++ t2)
        end
    end.

(** [try: c except ...: handler]: [handler e] is [None] when no except
    clause matches [e], which then keeps propagating. *)
Definition try_except {A} (c : M A) (handler : exn -> option (M A)) : M A :=
  fun w =>
    match c w with
    | (inr a, w1, t1) => (inr a, w1, t1)
    | (inl e, w1, t1) =>
        match handler e with
        | None => (inl e, w1, t1)
        | Some h =>
            match h w1 with
            | (r, w2, t2) => (r, w2, t1 ++ t2)
            end
        end
    end.

Definition emit (ev : event) : M unit := fun w => (inr tt, w, [ev]).

Definition LOG (lvl : level) (fmt : string) (args : list logarg) : M unit :=
  emit (EvLog lvl fmt args).

Definition sleep (seconds : nat) : M unit := emit (EvSleep seconds).

Definition exec_ps_command (cmd : string) : M string :=
  fun w =>
    match conn_exec_ps_command m cmd w with
    | (r, w1) => (r, w1, [EvExec cmd r])
    end.

Definition write_file (path data : string) : M unit :=
  fun w =>
    match conn_write_file m path data w with
    | (r, w1) => (r, w1, [EvWrite path data r])
    end.

Definition test_path (path : string) : M bool :=
  fun w =>
    match conn_test_path m path w with
    | (r, w1) => (r, w1, [EvTestPath path r])
    end.

Definition fresh_uuid : M string :=
  fun w => match uuid4 m w with (u, w1) => (inr u, w1, []) end.

(** A [for] loop without [break]. *)
Fixpoint for_each {A} (body : A -> M unit) (l : list A) : M unit :=
  match l with
  | [] => ret tt
  | x :: xs => bind (body x) (fun _ => for_each body xs)
  end.

End Monad.

Arguments Comp : clear implicits.

Notation "x <- c ;; k" := (bind c (fun x => k))
  (at level 61, c at next level, right associativity).
Notation "c ;;; k" := (bind c (fun _ => k))
  (at level 61, right associativity).

(** ** The methods of [WindowsMountTools] *)

Section WindowsMountTools.
Import PyStr Re.
Context {m : Machine}.

(** Modelled from the spec: the default number of attempts of
    [utils.retry_on_error], a constant of the module coriolis.utils,
    which is not part of the sources at hand. *)
Variable retry_max_attempts : nat.

Local Abbreviation M := (Comp m).

(** [s.split(sep)] inside a computation. *)
Definition py_split (s sep : string) : M (list string) :=
  match split s sep with
  | Some l => ret l
  | None => raise (mk_exn PyException "empty separator")
  end.

(** [fmt % arg] inside a computation. *)
Definition py_format (fmt arg : string) : M string :=
  match format1 fmt arg with
  | Some s => ret s
  | None => raise (mk_exn PyException "string formatting failed")
  end.

Definition check_os : M bool :=
  try_except
    (version_info <- exec_ps_command "(get-ciminstance Win32_OperatingSystem).Caption" ;;
     LOG LvlDebug "Windows version: %s" [AStr version_info] ;;;
     ret true)
    (fun e =>
       if isinstance e NotAuthorized then None
       else if isinstance e CoriolisException then
         Some (LOG LvlDebug "Failed Windows OSMount OS check: %s" [AExn e] ;;;
               ret false)
       else None).

(** The bytes handed to [write_file] are represented by the text that
    they encode. *)
Definition _run_diskpart_script (script : string) : M string :=
  tempdir <- exec_ps_command "$env:TEMP" ;;
  u <- fresh_uuid ;;
  let filepath := tempdir +++ "\" +++ u +++ ".txt" in
  write_file filepath script ;;;
  exec_ps_command ("diskpart.exe /s '" +++ filepath +++ "'").

Definition disk_list_script : string := "LIST DISK" +++ CRLF +++ "EXIT".

(** The pattern [disk_entry_re] with its two holes filled: blanks, the
    word Disk and one space, the identifier group, blanks, the status,
    blanks.  The status is matched as literal text: this is the pattern of
    the source for a status without pattern metacharacters, such as
    Foreign (see [plain_status]); a status that holds metacharacters is
    outside the model. *)
Definition disk_entry_re (id_pattern : regex) (status : string) : regex :=
  Seq (Plus (Cls isspace))
    (Seq (Lit "Disk ")
       (Seq (Group id_pattern)
          (Seq (Plus (Cls isspace))
             (Seq (Lit status) (Plus (Cls isspace)))))).

Definition search_disk_entry_re (status : string) : regex :=
  disk_entry_re (Plus (Cls isdigit09)) status.

Definition curr_disk_entry_re (disk_id status : string) : regex :=
  disk_entry_re (Lit disk_id) status.

(** The comprehension that builds [servicable_disk_ids] from the lines
    of a disk listing. *)
Definition servicable_ids (status : string) (lines : list string) : list string :=
  flat_map
    (fun d =>
       match re_match (search_disk_entry_re status) d with
       | Some groups => [group1 groups]
       | None => []
       end)
    lines.

Section ServiceDisks.
Variables (status service_script_with_id_fmt : string).
Variable skip_on_error : bool.
Variable logmsg_fmt : string.
Variable disk_ids_to_skip : list string.

Definition servicing_warning : string :=
  "Exception ocurred while servicing disk '%s' with status '%s'.Skipping running script '%s'. Error message: %s".

(** The inner loop over the lines of the fresh listing: the first line
    that matches the entry of [disk_id] triggers the service script, and
    the loop is left. *)
Fixpoint service_first_match (disk_id : string) (lines : list string) : M unit :=
  match lines with
  | [] => ret tt
  | line :: rest =>
      match re_match (curr_disk_entry_re disk_id status) line with
      | Some _ =>
          LOG LvlInfo logmsg_fmt [AStr disk_id] ;;;
          script <- py_format service_script_with_id_fmt disk_id ;;
          try_except
            (_run_diskpart_script script ;;; ret tt)
            (fun ex =>
               Some (if skip_on_error
                     then LOG LvlWarn servicing_warning
                            [AStr disk_id; AStr status; AStr script; AExn ex]
                     else raise ex))
      | None => service_first_match disk_id rest
      end
  end.

(** The body of the outer loop, for one candidate. *)
Definition service_candidate (disk_id : string) : M unit :=
  if mem disk_id disk_ids_to_skip then
    LOG LvlWarn "Skipping disk with ID: %s" [AStr disk_id]
  else
    disk_list <- _run_diskpart_script disk_list_script ;;
    lines <- py_split disk_list CRLF ;;
    service_first_match disk_id lines.

(** The outer loop over a list of candidates. *)
Definition service_loop (ids : list string) : M unit :=
  for_each service_candidate ids.

End ServiceDisks.

Definition default_logmsg_fmt : string := "Operating on disk with index '%s'".

Definition _service_disks_with_status
    (status service_script_with_id_fmt : string) (skip_on_error : bool)
    (logmsg_fmt : string) (disk_ids_to_skip : option (list string)) : M unit :=
  let disk_ids_to_skip :=
    match disk_ids_to_skip with None => [] | Some l => l end in
  disk_list <- _run_diskpart_script disk_list_script ;;
  lines <- py_split disk_list CRLF ;;
  let servicable_disk_ids := servicable_ids status lines in
  LOG LvlDebug "Servicing disks with status '%s' (%s) from disk list: %s"
    [AStr status; AList servicable_disk_ids; AStr disk_list] ;;;
  service_loop status service_script_with_id_fmt skip_on_error logmsg_fmt
    disk_ids_to_skip servicable_disk_ids.

Definition _set_foreign_disks_rw_mode : M unit :=
  _service_disks_with_status "Foreign"
    ("SELECT DISK %s" +++ CRLF +++ "ATTRIBUTES DISK CLEAR READONLY" +++ CRLF +++ "EXIT")
    false "Clearing R/O flag on foreign disk with ID '%s'." None.

Definition _import_foreign_disks : M unit :=
  _service_disks_with_status "Foreign"
    ("SELECT DISK %s" +++ CRLF +++ "IMPORT" +++ CRLF +++ "EXIT")
    false "Importing foreign disk with ID '%s'." None.

Definition offline_disks_query : string :=
  "(Get-Disk | Where-Object { $_.IsOffline -eq $True }).Number".

Definition set_online_cmd (disk_num : string) : string :=
  "Set-Disk -IsOffline $False " +++ disk_num.

Definition _bring_disks_online (disk_nums : option (list string)) : M unit :=
  disk_nums <-
    match disk_nums with
    | None => out <- exec_ps_command offline_disks_query ;; ret (splitlines out)
    | Some l => ret l
    end ;;
  for_each
    (fun disk_num =>
       try_except
         (exec_ps_command (set_online_cmd disk_num) ;;; ret tt)
         (fun e =>
            if isinstance e CoriolisException then
              Some (LOG LvlWarn "Failed setting disk %s online. Error was: %s"
                      [AStr disk_num; AExn e])
            else None))
    disk_nums.

Definition read_only_disks_query : string :=
  "(Get-Disk | Where-Object { $_.IsReadOnly -eq $True }).Number".

Definition clear_read_only_cmd (disk_num : string) : string :=
  "Set-Disk -IsReadOnly $False " +++ disk_num.

Definition _set_basic_disks_rw_mode : M unit :=
  read_only_disk_nums <- exec_ps_command read_only_disks_query ;;
  for_each
    (fun disk_num =>
       try_except
         (exec_ps_command (clear_read_only_cmd disk_num) ;;; ret tt)
         (fun e =>
            if isinstance e CoriolisException then
              Some (LOG LvlWarn "Failed setting disk %s RW flag. Error was: %s"
                      [AStr disk_num; AExn e])
            else None))
    (splitlines read_only_disk_nums).

Definition _get_system_drive : M string := exec_ps_command "$env:SystemDrive".

Definition fs_roots_query : string := "(get-psdrive -PSProvider FileSystem).Root".

Definition _get_fs_roots (fail_if_empty : bool) : M (list string) :=
  out <- exec_ps_command fs_roots_query ;;
  drives <- py_split out (conn_EOL m) ;;
  if Nat.eqb (List.length drives) 0 && fail_if_empty
  then raise (mk_exn CoriolisException "No filesystems found")
  else ret drives.

Definition nonboot_disks_query : string :=
  "(Get-Disk | Where-Object { $_.IsBoot -eq $False }).Number".

Definition set_offline_cmd (disk_num : string) : string :=
  "Set-Disk -IsOffline $True " +++ disk_num.

Definition _bring_nonboot_disks_offline (disk_nums : option (list string)) : M unit :=
  disk_nums <-
    match disk_nums with
    | None => out <- exec_ps_command nonboot_disks_query ;; ret (splitlines out)
    | Some l => ret l
    end ;;
  for_each
    (fun disk_num =>
       try_except
         (exec_ps_command (set_offline_cmd disk_num) ;;; ret tt)
         (fun e =>
            if isinstance e CoriolisException then
              Some (LOG LvlWarn "Failed setting disk %s offline. Error was: %s"
                      [AStr disk_num; AExn e])
            else None))
    disk_nums.

Definition _rebring_disks_online (disk_nums : option (list string)) : M unit :=
  _bring_nonboot_disks_offline disk_nums ;;;
  _bring_disks_online disk_nums.

Definition partitions_query : string :=
  "Get-Partition | Where-Object { $_.Type -eq " +++ DQ +++ "Basic" +++ DQ +++
  " -and $_.NoDefaultDriveLetter -eq $True } | Select-Object -Property DiskNumber,PartitionNumber".

Definition set_partition_cmd (disk_num part_num : string) : string :=
  "Set-Partition -NoDefaultDriveLetter $False -DiskNumber " +++ disk_num +++
  " -PartitionNumber " +++ part_num.

(** The loop over the partition lines; [disk_nums] is the list that the
    loop appends to, and its final value is returned. *)
Fixpoint enable_drive_letters (disk_nums : list string) (parts : list string)
  : M (list string) :=
  match parts with
  | [] => ret disk_nums
  | part :: rest =>
      let part_line := split_ws part in
      match part_line with
      | disk_num :: part_num :: _ =>
          if negb (isnumeric disk_num) || negb (isnumeric part_num) then
            LOG LvlDebug "Skipping partition line: %s" [AList part_line] ;;;
            enable_drive_letters disk_nums rest
          else
            exec_ps_command (set_partition_cmd disk_num part_num) ;;;
            enable_drive_letters (disk_nums ++ [disk_num]) rest
      | _ =>
          LOG LvlDebug "Skipping partition line: %s" [AList part_line] ;;;
          enable_drive_letters disk_nums rest
      end
  end.

Definition _set_volumes_drive_letter : M unit :=
  partitions <- exec_ps_command partitions_query ;;
  if truthy partitions then
    LOG LvlDebug "Partitions without default drive letter: %s" [AStr partitions] ;;;
    disk_nums <- enable_drive_letters [] (splitlines partitions) ;;
    _rebring_disks_online (Some disk_nums)
  else ret tt.

(** Modelled from the spec: [utils.retry_on_error] of the module
    coriolis.utils, which is not part of the sources at hand: the
    wrapped call is attempted up to a fixed number of times, with a fixed
    sleep between two attempts, and the failure of the last attempt is
    raised.  [retries] is the number of attempts still allowed after the
    next one. *)
Fixpoint retry_loop {A} (retries sleep_seconds : nat) (f : M A) : M A :=
  try_except f
    (fun e =>
       match retries with
       | O => None
       | S k => Some (sleep sleep_seconds ;;; retry_loop k sleep_seconds f)
       end).

Definition retry_on_error {A} (max_attempts sleep_seconds : nat) (f : M A) : M A :=
  retry_loop (max_attempts - 1) sleep_seconds f.

Definition os_marker (fs_root : string) : string := fs_root +++ "Windows\System32".

(** The comprehension of [mount_os] that leaves the system drive out. *)
Definition candidate_roots (fs_roots : list string) (system_drive : string)
  : list string :=
  filter (fun r => negb (String.eqb (drop_last r) system_drive)) fs_roots.

(** The final loop of [mount_os] over the candidate roots. *)
Fixpoint find_os_root (roots : list string) : M (string * option string) :=
  match roots with
  | [] => raise (mk_exn OperatingSystemNotFound "root partition not found")
  | fs_root :: rest =>
      found <- test_path (os_marker fs_root) ;;
      if found then ret (fs_root, None) else find_os_root rest
  end.

Definition mount_os : M (string * option string) :=
  _bring_disks_online None ;;;
  _set_basic_disks_rw_mode ;;;
  _set_volumes_drive_letter ;;;
  fs_roots <- retry_on_error retry_max_attempts 5 (_get_fs_roots true) ;;
  system_drive <- _get_system_drive ;;
  find_os_root (candidate_roots fs_roots system_drive).

Definition dismount_os (root_drive : string) : M unit :=
  _bring_nonboot_disks_offline None.

End WindowsMountTools.

(** ** A simulated target machine

    A small executable machine on which the methods can be run: a table
    of disks with their status, the files written so far, a counter that
    stands for the random identifiers, and a configuration that fixes the
    answers of the queries and the calls that fail. *)

Module Sim.
Import PyStr.

Record config : Type := mk_config {
  cfg_fs_roots : string;                 (* answer of the root enumeration *)
  cfg_system_drive : string;             (* answer of the system-drive query *)
  cfg_paths : list string;               (* the paths that exist *)
  cfg_offline : string;                  (* answer of the offline-disk query *)
  cfg_read_only : string;                (* answer of the read-only-disk query *)
  cfg_nonboot : string;                  (* answer of the non-boot-disk query *)
  cfg_partitions : string;               (* answer of the partition query *)
  cfg_failing : list (string * exn);     (* commands that fail, with their error *)
  cfg_failing_scripts : list (string * exn)  (* diskpart scripts that fail *)
}.

Record world : Type := mk_world {
  disks : list (string * string);        (* identifier and status, in listing order *)
  files : list (string * string);        (* path and content, latest first *)
  uuid_counter : nat
}.

Fixpoint assoc {B} (k : string) (l : list (string * B)) : option B :=
  match l with
  | [] => None
  | (k', v) :: rest => if String.eqb k k' then Some v else assoc k rest
  end.

Fixpoint join (sep : string) (l : list string) : string :=
  match l with
  | [] => EmptyString
  | [x] => x
  | x :: rest => x +++ sep +++ join sep rest
  end.

(** The table that LIST DISK prints. *)
Definition render (ds : list (string * string)) : string :=
  join CRLF
    ([ EmptyString;
       "  Disk ###  Status         Size     Free     Dyn  Gpt";
       "  --------  -------------  -------  -------  ---  ---" ]
     ++ map (fun d => "  Disk " +++ fst d +++ "    " +++ snd d +++ "         127 GB      0 B") ds
     ++ [ EmptyString ]).

Definition import_script (disk_id : string) : string :=
  "SELECT DISK " +++ disk_id +++ CRLF +++ "IMPORT" +++ CRLF +++ "EXIT".

(** Importing one foreign disk imports its whole group: every foreign
    disk comes online. *)
Definition import_group (ds : list (string * string)) : list (string * string) :=
  map (fun d => if String.eqb (snd d) "Foreign" then (fst d, "Online") else d) ds.

Definition run_script (cfg : config) (script : string) (w : world)
  : (exn + string) * world :=
  match assoc script (cfg_failing_scripts cfg) with
  | Some e => (inl e, w)
  | None =>
      if String.eqb script ("LIST DISK" +++ CRLF +++ "EXIT") then
        (inr (render (disks w)), w)
      else if existsb (fun d => String.eqb script (import_script (fst d))) (disks w) then
        (inr "DiskPart successfully imported the disk group.",
         mk_world (import_group (disks w)) (files w) (uuid_counter w))
      else (inr EmptyString, w)
  end.

Definition diskpart_prefix : string := "diskpart.exe /s '".

Definition exec (cfg : config) (cmd : string) (w : world) : (exn + string) * world :=
  match assoc cmd (cfg_failing cfg) with
  | Some e => (inl e, w)
  | None =>
      if String.eqb cmd "$env:TEMP" then (inr "C:\Temp", w)
      else if String.eqb cmd "$env:SystemDrive" then (inr (cfg_system_drive cfg), w)
      else if String.eqb cmd "(get-psdrive -PSProvider FileSystem).Root"
           then (inr (cfg_fs_roots cfg), w)
      else if String.eqb cmd "(Get-Disk | Where-Object { $_.IsOffline -eq $True }).Number"
           then (inr (cfg_offline cfg), w)
      else if String.eqb cmd "(Get-Disk | Where-Object { $_.IsReadOnly -eq $True }).Number"
           then (inr (cfg_read_only cfg), w)
      else if String.eqb cmd "(Get-Disk | Where-Object { $_.IsBoot -eq $False }).Number"
           then (inr (cfg_nonboot cfg), w)
      else if prefix "Get-Partition" cmd then (inr (cfg_partitions cfg), w)
      else if prefix diskpart_prefix cmd then
        let path := drop_last (skipn_str (String.length diskpart_prefix) cmd) in
        match assoc path (files w) with
        | Some script => run_script cfg script w
        | None => (inl (mk_exn CoriolisException "script file not found"), w)
        end
      else (inr EmptyString, w)
  end.

Definition write (path data : string) (w : world) : (exn + unit) * world :=
  (inr tt, mk_world (disks w) ((path, data) :: files w) (uuid_counter w)).

Definition test (cfg : config) (path : string) (w : world) : (exn + bool) * world :=
  (inr (mem path (cfg_paths cfg)), w).

Definition uuid (w : world) : string * world :=
  ("uuid-" +++ chr (97 + uuid_counter w),
   mk_world (disks w) (files w) (S (uuid_counter w))).

Definition machine (cfg : config) : Machine :=
  mk_machine world (exec cfg) write (test cfg) CRLF uuid.

Definition quiet : config :=
  mk_config EmptyString "C:" [] EmptyString EmptyString EmptyString EmptyString [] [].

Definition with_disks (ds : list (string * string)) : world := mk_world ds [] 0.

End Sim.

(** ** Observations on a run *)

Section Observations.
Context {m : Machine} {A : Type}.

Definition outcome (r : (exn + A) * World m * trace) : exn + A := fst (fst r).
Definition final (r : (exn + A) * World m * trace) : World m := snd (fst r).
Definition events (r : (exn + A) * World m * trace) : trace := snd r.

End Observations.

(** The commands sent through [exec_ps_command], in order. *)
Definition execs (t : trace) : list string :=
  flat_map (fun ev => match ev with EvExec cmd _ => [cmd] | _ => [] end) t.

(** The contents written through [write_file], in order: the diskpart
    scripts that were submitted. *)
Definition scripts (t : trace) : list string :=
  flat_map (fun ev => match ev with EvWrite _ data _ => [data] | _ => [] end) t.

(** The disks on which a service operation was announced: the argument of
    the records of level info, which the servicing pass writes right before
    it formats and runs the service script of a disk. *)
Definition announced (t : trace) : list string :=
  flat_map
    (fun ev => match ev with EvLog LvlInfo _ [AStr d] => [d] | _ => [] end) t.

(** The commands that failed, with their error. *)
Definition failures (t : trace) : list (string * exn) :=
  flat_map (fun ev => match ev with EvExec cmd (inl e) => [(cmd, e)] | _ => [] end) t.

(** The warnings about one disk and one error: the disk and the error. *)
Definition warnings (t : trace) : list (string * exn) :=
  flat_map
    (fun ev =>
       match ev with
       | EvLog LvlWarn _ [AStr d; AExn e] => [(d, e)]
       | _ => []
       end) t.

(** The failures that the warnings about per-disk commands account for. *)
Definition warned_failures (cmd_of : string -> string) (t : trace)
  : list (string * exn) :=
  map (fun p => (cmd_of (fst p), snd p)) (warnings t).

Definition sleeps (t : trace) : list nat :=
  flat_map (fun ev => match ev with EvSleep n => [n] | _ => [] end) t.

(** The paths probed through [test_path], in order. *)
Definition probes (t : trace) : list string :=
  flat_map (fun ev => match ev with EvTestPath p _ => [p] | _ => [] end) t.

(** The contract of the remote shell: a command that fails, fails with an
    error of the remote-execution family. *)
Definition shell_errors_typed (m : Machine) : Prop :=
  forall cmd (w w' : World m) e,
    conn_exec_ps_command m cmd w = (inl e, w') ->
    isinstance e CoriolisException = true.

(** Order-preserving sub-list. *)
Inductive Subseq {A} : list A -> list A -> Prop :=
| Subseq_nil : Subseq [] []
| Subseq_skip : forall x l1 l2, Subseq l1 l2 -> Subseq l1 (x :: l2)
| Subseq_keep : forall x l1 l2, Subseq l1 l2 -> Subseq (x :: l1) (x :: l2).

(** The body shared by the three best-effort loops: one command for the
    disk, and a warning when it fails with an error of the remote-execution
    family. *)
Definition best_effort {m : Machine} (cmd_of : string -> string) (warning : string)
    (disk_num : string) : Comp m unit :=
  try_except
    (exec_ps_command (cmd_of disk_num) ;;; ret tt)
    (fun e =>
       if isinstance e CoriolisException then
         Some (LOG LvlWarn warning [AStr disk_num; AExn e])
       else None).

(** ** Vocabulary of the servicing pass *)

Section ServiceVocabulary.
Import PyStr Re.
Context {m : Machine}.

(** The test of the inner loop on one line of a listing. *)
Definition line_matches (disk_id status line : string) : bool :=
  match re_match (curr_disk_entry_re disk_id status) line with
  | Some _ => true
  | None => false
  end.

(** The lines of a listing, split as the pass splits them. *)
Definition listing_lines (disk_list : string) : list string :=
  split_go CRLF 0 EmptyString disk_list.

(** The candidates that the first listing of a pass started in [w]
    defines; no candidate when that listing fails. *)
Definition initial_candidates (status : string) (w : World m) : list string :=
  match _run_diskpart_script disk_list_script w with
  | (inr disk_list, _, _) => servicable_ids status (listing_lines disk_list)
  | (inl _, _, _) => []
  end.

(** The block that the inner loop runs on the first matching line:
    the announcement, the formatting of the script, and the guarded run. *)
Definition service_now (status service_script_with_id_fmt : string)
    (skip_on_error : bool) (logmsg_fmt disk_id : string) : Comp m unit :=
  LOG LvlInfo logmsg_fmt [AStr disk_id] ;;;
  script <- py_format service_script_with_id_fmt disk_id ;;
  try_except
    (_run_diskpart_script script ;;; ret tt)
    (fun ex =>
       Some (if skip_on_error
             then LOG LvlWarn servicing_warning
                    [AStr disk_id; AStr status; AStr script; AExn ex]
             else raise ex)).

(** The script contents that one iteration of the outer loop can submit:
    nothing, the listing script, or the listing script and then the
    service script of a disk that is not to be skipped. *)
Definition iteration_scripts (service_script_with_id_fmt : string)
    (disk_ids_to_skip : list string) (disk_id : string) (l : list string) : Prop :=
  l = [] \/ l = [disk_list_script] \/
  (mem disk_id disk_ids_to_skip = false /\
   exists s, format1 service_script_with_id_fmt disk_id = Some s /\
             l = [disk_list_script; s]).

(** The record that a pass writes after its first listing. *)
Definition pass_record (status : string) (ids : list string) (disk_list : string)
  : event :=
  EvLog LvlDebug "Servicing disks with status '%s' (%s) from disk list: %s"
    [AStr status; AList ids; AStr disk_list].

Definition announcement (logmsg_fmt disk_id : string) : event :=
  EvLog LvlInfo logmsg_fmt [AStr disk_id].

Definition failure_warning (disk_id status script : string) (e : exn) : event :=
  EvLog LvlWarn servicing_warning [AStr disk_id; AStr status; AStr script; AExn e].

End ServiceVocabulary.

(** ** Scenarios on the simulated machine *)

Module Scenario.
Import PyStr.

(** The identification query fails with [e]. *)
Definition caption_fails_with (e : exn) : Sim.config :=
  Sim.mk_config EmptyString "C:" [] EmptyString EmptyString EmptyString EmptyString
    [("(get-ciminstance Win32_OperatingSystem).Caption", e)] [].

Definition not_authorized : exn := mk_exn NotAuthorized "Not authorized.".
Definition command_failed : exn := mk_exn CoriolisException "Command failed with exit code: 1".

(** Disks 1, 2 and 3 are reported by each of the three disk queries; every
    command on disk 2 fails. *)
Definition three_disks : string := "1" +++ CRLF +++ "2" +++ CRLF +++ "3".

Definition disk2_fails : Sim.config :=
  Sim.mk_config EmptyString "C:" [] three_disks three_disks three_disks EmptyString
    [("Set-Disk -IsOffline $False 2", command_failed);
     ("Set-Disk -IsReadOnly $False 2", command_failed);
     ("Set-Disk -IsOffline $True 2", command_failed)] [].

(** Roots C, D and E; the system drive is C; the marker exists on C and
    on E. *)
Definition roots_cde : list string := ["C:\"; "D:\"; "E:\"].

Definition os_on_e : Sim.config :=
  Sim.mk_config ("C:\" +++ CRLF +++ "D:\" +++ CRLF +++ "E:\") "C:"
    ["C:\Windows\System32"; "E:\Windows\System32"]
    EmptyString EmptyString EmptyString EmptyString [] [].

Definition marker_on_c_and_e (p : string) : bool := mem p (Sim.cfg_paths os_on_e).

(** Disk 1 is offline and read-only, and its partition 2 has no default
    drive letter; the OS is on D. *)
Definition partition_table : string :=
  CRLF +++ "DiskNumber PartitionNumber" +++ CRLF +++
  "---------- ---------------" +++ CRLF +++
  "         1               2" +++ CRLF +++ CRLF.

Definition os_on_d : Sim.config :=
  Sim.mk_config ("C:\" +++ CRLF +++ "D:\") "C:" ["D:\Windows\System32"]
    "1" "1" EmptyString partition_table [] [].

(** Partition 2 of disk 1 and partition 1 of disk 2 have no default drive
    letter; setting the flag of the first one fails. *)
Definition two_partitions : string :=
  "         1               2" +++ CRLF +++ "         2               1".

Definition set_partition_fails : Sim.config :=
  Sim.mk_config EmptyString "C:" [] EmptyString EmptyString EmptyString two_partitions
    [("Set-Partition -NoDefaultDriveLetter $False -DiskNumber 1 -PartitionNumber 2",
      command_failed)] [].

(** The listing of three disks, of which disks 1 and 10 are foreign. *)
Definition listing_1_10 : list string :=
  listing_lines
    (Sim.render [("0", "Online"); ("1", "Foreign"); ("10", "Foreign")]).

Definition line_of_disk_10 : string := "  Disk 10    Foreign         127 GB      0 B".

(** Three disks, none of them foreign. *)
Definition settled_disks : list (string * string) :=
  [("0", "Online"); ("1", "Offline"); ("2", "Online")].

Definition settled (w : Sim.world) : Prop := Sim.disks w = settled_disks.

Definition clear_readonly_fmt : string :=
  "SELECT DISK %s" +++ CRLF +++ "ATTRIBUTES DISK CLEAR READONLY" +++ CRLF +++ "EXIT".

(** Every command on disk 2 fails with an error outside the
    remote-execution family. *)
Definition connection_lost : exn := mk_exn PyException "Connection aborted.".

Definition disk2_breaks : Sim.config :=
  Sim.mk_config EmptyString "C:" [] three_disks three_disks three_disks EmptyString
    [("Set-Disk -IsOffline $False 2", connection_lost);
     ("Set-Disk -IsReadOnly $False 2", connection_lost);
     ("Set-Disk -IsOffline $True 2", connection_lost)] [].

(** Roots C, D and E, the system drive C, and the marker under each of
    the three roots. *)
Definition os_on_all : Sim.config :=
  Sim.mk_config ("C:\" +++ CRLF +++ "D:\" +++ CRLF +++ "E:\") "C:"
    ["C:\Windows\System32"; "D:\Windows\System32"; "E:\Windows\System32"]
    EmptyString EmptyString EmptyString EmptyString [] [].

Definition marker_on_all (p : string) : bool := mem p (Sim.cfg_paths os_on_all).

(** The only root is reported with the very text of the system drive,
    and the marker path built from it exists. *)
Definition root_is_drive_text : Sim.config :=
  Sim.mk_config "C:" "C:" ["C:Windows\System32"]
    EmptyString EmptyString EmptyString EmptyString [] [].

(** A listing that names the foreign disk 1 on two lines. *)
Definition twice_listed : Sim.world :=
  Sim.with_disks [("1", "Foreign"); ("1", "Foreign")].

(** The root enumeration answers with the empty text. *)
Definition no_roots : Sim.config :=
  Sim.mk_config EmptyString "C:" [] EmptyString EmptyString EmptyString EmptyString [] [].

(** The root enumeration fails. *)
Definition roots_query_fails : Sim.config :=
  Sim.mk_config EmptyString "C:" [] EmptyString EmptyString EmptyString EmptyString
    [("(get-psdrive -PSProvider FileSystem).Root", command_failed)] [].

(** Two foreign disks of one group and one disk that is online. *)
Definition foreign_pair : Sim.world :=
  Sim.with_disks [("0", "Foreign"); ("1", "Foreign"); ("2", "Online")].

(** The import of disk 0 fails. *)
Definition import0_fails : Sim.config :=
  Sim.mk_config EmptyString "C:" [] EmptyString EmptyString EmptyString EmptyString []
    [(Sim.import_script "0", command_failed)].

Definition import_fmt : string := "SELECT DISK %s" +++ CRLF +++ "IMPORT" +++ CRLF +++ "EXIT".

End Scenario.

(** ** Vocabulary of failures *)

(** The error of an event that records a failed remote call. *)
Definition ev_error (ev : event) : option exn :=
  match ev with
  | EvExec _ (inl e) => Some e
  | EvWrite _ _ (inl e) => Some e
  | EvTestPath _ (inl e) => Some e
  | _ => None
  end.

(** A run that stops at the first event that [sel] selects: such an event
    is the last event of the run, and the error that [sel] gives for it is
    the result of the run. *)
Definition stops_at {m : Machine} {A : Type} (sel : event -> option exn)
    (r : (exn + A) * World m * trace) : Prop :=
  forall t1 ev t2 e,
    events r = t1 ++ ev :: t2 -> sel ev = Some e ->
    t2 = [] /\ outcome r = inl e.

(** A selection of failed remote calls. *)
Definition selects_failures (sel : event -> option exn) : Prop :=
  forall ev e, sel ev = Some e -> ev_error ev = Some e.

(** The error of a command that failed with an exception outside the
    remote-execution family. *)
Definition outside_error (ev : event) : option exn :=
  match ev with
  | EvExec _ (inl e) => if isinstance e CoriolisException then None else Some e
  | _ => None
  end.

(** ** Vocabulary of the drive-letter step *)

(** The partitions that the loop of [_set_volumes_drive_letter] acts on:
    for each line whose first two blank-separated fields are numeric, the
    disk number and the partition number. *)
Definition numeric_partitions (parts : list string) : list (string * string) :=
  flat_map
    (fun part =>
       match PyStr.split_ws part with
       | disk_num :: part_num :: _ =>
           if PyStr.isnumeric disk_num && PyStr.isnumeric part_num
           then [(disk_num, part_num)]
           else []
       | _ => []
       end)
    parts.

Definition set_partition_of (p : string * string) : string :=
  set_partition_cmd (fst p) (snd p).

Definition is_set_partition (cmd : string) : bool := prefix "Set-Partition" cmd.

(** The error of a failed Set-Partition command. *)
Definition set_partition_error (ev : event) : option exn :=
  match ev with
  | EvExec cmd (inl e) => if is_set_partition cmd then Some e else None
  | _ => None
  end.

(** ** Vocabulary of the root search *)

(** The probe of the marker under [fs_root], with its answer. *)
Definition probe (answer : exn + bool) (fs_root : string) : event :=
  EvTestPath (os_marker fs_root) answer.

(** An event that is not a file write. *)
Definition not_a_write (ev : event) : Prop :=
  match ev with
  | EvWrite _ _ _ => False
  | _ => True
  end.

(** ** Vocabulary of the disk-entry pattern *)

(** A non-empty run of blanks. *)
Definition blanks (ws : string) : Prop :=
  ws <> EmptyString /\ PyStr.forallb_str PyStr.isspace ws = true.

(** A non-empty run of decimal digits. *)
Definition digits (d : string) : Prop :=
  d <> EmptyString /\ PyStr.forallb_str PyStr.isdigit09 d = true.

(** A text whose first character is outside the class [p]. *)
Definition starts_outside (p : ascii -> bool) (x : string) : Prop :=
  match x with
  | String c _ => p c = false
  | EmptyString => False
  end.

(** The texts that the disk-entry pattern accepts at their start for the
    identifier [id]: blanks, the word Disk and one space, the identifier,
    blanks, the status, blanks; [rest] is what follows. *)
Definition entry_shape (id status line rest : string) : Prop :=
  exists ws1 ws2 ws3,
    blanks ws1 /\ blanks ws2 /\ blanks ws3 /\
    line = ws1 +++ "Disk " +++ id +++ ws2 +++ status +++ ws3 +++ rest.

(** ** Vocabulary of the foreign-disk passes *)

Definition clear_readonly_script (disk_id : string) : string :=
  "SELECT DISK " +++ disk_id +++ PyStr.CRLF +++ "ATTRIBUTES DISK CLEAR READONLY"
  +++ PyStr.CRLF +++ "EXIT".

Definition import_script (disk_id : string) : string :=
  "SELECT DISK " +++ disk_id +++ PyStr.CRLF +++ "IMPORT" +++ PyStr.CRLF +++ "EXIT".

(** ** Further vocabulary of the mount sequence and of the pass *)

(** The steps of [mount_os] before its final loop, with the roots and
    the system drive that they hand to the loop. *)
Definition discover_roots {m : Machine} (retry_max_attempts : nat)
  : Comp m (list string * string) :=
  _bring_disks_online None ;;;
  _set_basic_disks_rw_mode ;;;
  _set_volumes_drive_letter ;;;
  fs_roots <- retry_on_error retry_max_attempts 5 (_get_fs_roots true) ;;
  system_drive <- _get_system_drive ;;
  ret (fs_roots, system_drive).

(** The iterations that a loop performs from the state [w]: each element
    that gets its turn, with the events of its iteration; an iteration that
    raises is the last one. *)
Fixpoint turns {m : Machine} {A : Type} (body : A -> Comp m unit) (l : list A)
    (w : World m) : list (A * trace) :=
  match l with
  | [] => []
  | x :: xs =>
      match body x w with
      | (inr _, w1, t) => (x, t) :: turns body xs w1
      | (inl _, _, t) => [(x, t)]
      end
  end.

(** The default of the argument [disk_ids_to_skip]. *)
Definition skip_list (disk_ids_to_skip : option (list string)) : list string :=
  match disk_ids_to_skip with None => [] | Some l => l end.

(** The characters with a meaning of their own in a pattern. *)
Definition is_meta (c : ascii) : bool :=
  existsb (Ascii.eqb c)
    ["."; "^"; "$"; "*"; "+"; "?"; "{"; "}"; "["; "]"; "\"; "|"; "("; ")"]%char.

(** A status without pattern metacharacters: for such a status the
    source builds the pattern that [disk_entry_re] models. *)
Definition plain_status (status : string) : bool :=
  PyStr.forallb_str (fun c => negb (is_meta c)) status.

(** ** Auxiliary facts *)

Ltac unfold_comp :=
  unfold bind, ret, raise, try_except, LOG, sleep, emit,
         exec_ps_command, write_file, test_path, fresh_uuid in *.

Lemma execs_app (t1 t2 : trace) : execs (t1 ++ t2) = execs t1 ++ execs t2.
Proof. unfold execs. apply flat_map_app. Qed.

Lemma scripts_app (t1 t2 : trace) : scripts (t1 ++ t2) = scripts t1 ++ scripts t2.
Proof. unfold scripts. apply flat_map_app. Qed.

Lemma failures_app (t1 t2 : trace) : failures (t1 ++ t2) = failures t1 ++ failures t2.
Proof. unfold failures. apply flat_map_app. Qed.

Lemma warned_failures_app (cmd_of : string -> string) (t1 t2 : trace) :
  warned_failures cmd_of (t1 ++ t2)
    = warned_failures cmd_of t1 ++ warned_failures cmd_of t2.
Proof. unfold warned_failures, warnings. rewrite flat_map_app. apply map_app. Qed.

Lemma announced_app (t1 t2 : trace) :
  announced (t1 ++ t2) = announced t1 ++ announced t2.
Proof. unfold announced. apply flat_map_app. Qed.

Lemma split_go_nonempty (sep : string) (s : string) :
  forall skip cur, PyStr.split_go sep skip cur s <> [].
Proof.
  induction s as [|c s IH]; intros skip cur.
  - simpl. discriminate.
  - destruct skip as [|k]; cbn [PyStr.split_go].
    + destruct (prefix sep (String c s)); [intro H; discriminate H | apply IH].
    + apply IH.
Qed.

Lemma split_nonempty (s sep : string) (l : list string) :
  PyStr.split s sep = Some l -> l <> [].
Proof.
  unfold PyStr.split. destruct sep; [discriminate|].
  intros H; inversion H; subst. apply split_go_nonempty.
Qed.

Section BestEffort.
Context {m : Machine}.

Lemma best_effort_step (cmd_of : string -> string) (warning : string) :
  shell_errors_typed m ->
  forall (d : string) (w : World m),
  exists w1 t1,
    best_effort cmd_of warning d w = (inr tt, w1, t1) /\
    execs t1 = [cmd_of d] /\
    failures t1 = warned_failures cmd_of t1.
Proof.
  intros Hty d w. unfold best_effort. unfold_comp.
  destruct (conn_exec_ps_command m (cmd_of d) w) as [[e|out] w1] eqn:Hx.
  - pose proof (Hty _ _ _ _ Hx) as Hc. rewrite Hc.
    eexists; eexists; repeat split; reflexivity.
  - eexists; eexists; repeat split; reflexivity.
Qed.

Lemma best_effort_loop (cmd_of : string -> string) (warning : string) :
  shell_errors_typed m ->
  forall (disk_nums : list string) (w : World m),
    outcome (for_each (best_effort cmd_of warning) disk_nums w) = inr tt /\
    execs (events (for_each (best_effort cmd_of warning) disk_nums w))
      = map cmd_of disk_nums /\
    failures (events (for_each (best_effort cmd_of warning) disk_nums w))
      = warned_failures cmd_of
          (events (for_each (best_effort cmd_of warning) disk_nums w)).
Proof.
  intros Hty disk_nums.
  induction disk_nums as [|d ds IH]; intros w.
  - repeat split; reflexivity.
  - destruct (best_effort_step cmd_of warning Hty d w) as (w1 & t1 & Hb & He & Hf).
    destruct (IH w1) as (Ho & Hes & Hfs).
    cbn [for_each]. unfold bind. rewrite Hb.
    destruct (for_each (best_effort cmd_of warning) ds w1) as [[r w2] t2].
    unfold outcome, events in *. cbn [fst snd] in *.
    split; [exact Ho|]. split.
    + rewrite execs_app, He, Hes. reflexivity.
    + rewrite failures_app, warned_failures_app, Hf, Hfs. reflexivity.
Qed.

End BestEffort.

Lemma sim_assoc_in {B} (k : string) (l : list (string * B)) (v : B) :
  Sim.assoc k l = Some v -> In v (map snd l).
Proof.
  induction l as [|[k' v'] l IH]; simpl; [discriminate|].
  destruct (String.eqb k k').
  - intros H; inversion H; now left.
  - intros H; right; now apply IH.
Qed.

(** On the simulated machine every failure is one that the configuration
    lists, or the error of a missing script file. *)
Lemma sim_errors_typed (cfg : Sim.config) :
  Forall (fun e => isinstance e CoriolisException = true)
         (map snd (Sim.cfg_failing cfg)) ->
  Forall (fun e => isinstance e CoriolisException = true)
         (map snd (Sim.cfg_failing_scripts cfg)) ->
  shell_errors_typed (Sim.machine cfg).
Proof.
  intros Hc Hs cmd w w' e. simpl. unfold Sim.exec.
  destruct (Sim.assoc cmd (Sim.cfg_failing cfg)) as [e0|] eqn:Ha.
  - intros H; inversion H; subst.
    rewrite Forall_forall in Hc. apply Hc. eapply sim_assoc_in; eauto.
  - repeat match goal with
           | |- context [if ?b then _ else _] => destruct b; try discriminate
           end.
    destruct (Sim.assoc _ (Sim.files w)) as [script|]; [|intros H; inversion H; reflexivity].
    unfold Sim.run_script.
    destruct (Sim.assoc script (Sim.cfg_failing_scripts cfg)) as [e1|] eqn:Hb.
    + intros H; inversion H; subst.
      rewrite Forall_forall in Hs. apply Hs. eapply sim_assoc_in; eauto.
    + repeat match goal with
             | |- context [if ?b then _ else _] => destruct b; try discriminate
             end.
Qed.

(** ** The OS probe *)

(** C6. [check_os] hands an authorization failure of the identification
    query on to its caller, answers false on any other failure of the
    remote-execution family, and answers true when the query succeeds. *)
Theorem check_os_outcomes (m : Machine) (w : World m) :
  (forall e w1,
      conn_exec_ps_command m "(get-ciminstance Win32_OperatingSystem).Caption" w
        = (inl e, w1) ->
      isinstance e NotAuthorized = true ->
      outcome (check_os w) = inl e) /\
  (forall e w1,
      conn_exec_ps_command m "(get-ciminstance Win32_OperatingSystem).Caption" w
        = (inl e, w1) ->
      isinstance e CoriolisException = true ->
      isinstance e NotAuthorized = false ->
      outcome (check_os w) = inr false) /\
  (forall v w1,
      conn_exec_ps_command m "(get-ciminstance Win32_OperatingSystem).Caption" w
        = (inr v, w1) ->
      outcome (check_os w) = inr true).
Proof.
  repeat split; intros until 1; unfold check_os; unfold_comp; rewrite H.
  - intros Hna. rewrite Hna. reflexivity.
  - intros Hc Hna. rewrite Hna, Hc. reflexivity.
  - reflexivity.
Qed.

Lemma check_os_outcomes_witness :
  outcome (check_os (m := Sim.machine (Scenario.caption_fails_with Scenario.not_authorized))
             (Sim.with_disks []))
    = inl Scenario.not_authorized /\
  outcome (check_os (m := Sim.machine (Scenario.caption_fails_with Scenario.command_failed))
             (Sim.with_disks []))
    = inr false /\
  outcome (check_os (m := Sim.machine Sim.quiet) (Sim.with_disks [])) = inr true.
Proof.
  split; [|split].
  - eapply (proj1 (check_os_outcomes
              (Sim.machine (Scenario.caption_fails_with Scenario.not_authorized))
              (Sim.with_disks []))); reflexivity.
  - eapply (proj1 (proj2 (check_os_outcomes
              (Sim.machine (Scenario.caption_fails_with Scenario.command_failed))
              (Sim.with_disks [])))); reflexivity.
  - eapply (proj2 (proj2 (check_os_outcomes (Sim.machine Sim.quiet) (Sim.with_disks []))));
      reflexivity.
Defined.

(** ** The best-effort steps *)

Lemma bring_disks_online_best_effort (m : Machine) :
  shell_errors_typed m ->
  forall (w w1 : World m) out,
    conn_exec_ps_command m offline_disks_query w = (inr out, w1) ->
    outcome (_bring_disks_online None w) = inr tt /\
    execs (events (_bring_disks_online None w))
      = offline_disks_query :: map set_online_cmd (PyStr.splitlines out) /\
    failures (events (_bring_disks_online None w))
      = warned_failures set_online_cmd (events (_bring_disks_online None w)).
Proof.
  intros Hty w w1 out Hq.
  pose proof (best_effort_loop set_online_cmd
                "Failed setting disk %s online. Error was: %s" Hty
                (PyStr.splitlines out) w1) as (Ho & He & Hf).
  unfold _bring_disks_online, bind, exec_ps_command, ret.
  rewrite Hq. fold (best_effort (m := m) set_online_cmd "Failed setting disk %s online. Error was: %s").
  destruct (for_each _ (PyStr.splitlines out) w1) as [[r w2] t2].
  unfold outcome, events in *. cbn [fst snd] in *. subst r.
  split; [reflexivity|]. split; [rewrite <- He; reflexivity|].
  exact Hf.
Qed.

Lemma set_basic_disks_rw_best_effort (m : Machine) :
  shell_errors_typed m ->
  forall (w w1 : World m) out,
    conn_exec_ps_command m read_only_disks_query w = (inr out, w1) ->
    outcome (_set_basic_disks_rw_mode w) = inr tt /\
    execs (events (_set_basic_disks_rw_mode w))
      = read_only_disks_query :: map clear_read_only_cmd (PyStr.splitlines out) /\
    failures (events (_set_basic_disks_rw_mode w))
      = warned_failures clear_read_only_cmd (events (_set_basic_disks_rw_mode w)).
Proof.
  intros Hty w w1 out Hq.
  pose proof (best_effort_loop clear_read_only_cmd
                "Failed setting disk %s RW flag. Error was: %s" Hty
                (PyStr.splitlines out) w1) as (Ho & He & Hf).
  unfold _set_basic_disks_rw_mode, bind, exec_ps_command, ret.
  rewrite Hq. fold (best_effort (m := m) clear_read_only_cmd "Failed setting disk %s RW flag. Error was: %s").
  destruct (for_each _ (PyStr.splitlines out) w1) as [[r w2] t2].
  unfold outcome, events in *. cbn [fst snd] in *. subst r.
  split; [reflexivity|]. split; [rewrite <- He; reflexivity|].
  exact Hf.
Qed.

Lemma bring_nonboot_disks_offline_best_effort (m : Machine) :
  shell_errors_typed m ->
  forall (w w1 : World m) out,
    conn_exec_ps_command m nonboot_disks_query w = (inr out, w1) ->
    outcome (_bring_nonboot_disks_offline None w) = inr tt /\
    execs (events (_bring_nonboot_disks_offline None w))
      = nonboot_disks_query :: map set_offline_cmd (PyStr.splitlines out) /\
    failures (events (_bring_nonboot_disks_offline None w))
      = warned_failures set_offline_cmd (events (_bring_nonboot_disks_offline None w)).
Proof.
  intros Hty w w1 out Hq.
  pose proof (best_effort_loop set_offline_cmd
                "Failed setting disk %s offline. Error was: %s" Hty
                (PyStr.splitlines out) w1) as (Ho & He & Hf).
  unfold _bring_nonboot_disks_offline, bind, exec_ps_command, ret.
  rewrite Hq. fold (best_effort (m := m) set_offline_cmd "Failed setting disk %s offline. Error was: %s").
  destruct (for_each _ (PyStr.splitlines out) w1) as [[r w2] t2].
  unfold outcome, events in *. cbn [fst snd] in *. subst r.
  split; [reflexivity|]. split; [rewrite <- He; reflexivity|].
  exact Hf.
Qed.

(** C7. The two best-effort steps of [mount_os], bringing the offline
    disks online and clearing the read-only flag, return normally whatever
    subset of the per-disk commands fails, and send the per-disk command
    for every disk of the list, in order; the failures are exactly those
    that the warnings report. *)
Theorem best_effort_steps_attempt_every_disk (m : Machine) :
  shell_errors_typed m ->
  (forall (w w1 : World m) out,
      conn_exec_ps_command m offline_disks_query w = (inr out, w1) ->
      outcome (_bring_disks_online None w) = inr tt /\
      execs (events (_bring_disks_online None w))
        = offline_disks_query :: map set_online_cmd (PyStr.splitlines out) /\
      failures (events (_bring_disks_online None w))
        = warned_failures set_online_cmd (events (_bring_disks_online None w))) /\
  (forall (w w1 : World m) out,
      conn_exec_ps_command m read_only_disks_query w = (inr out, w1) ->
      outcome (_set_basic_disks_rw_mode w) = inr tt /\
      execs (events (_set_basic_disks_rw_mode w))
        = read_only_disks_query :: map clear_read_only_cmd (PyStr.splitlines out) /\
      failures (events (_set_basic_disks_rw_mode w))
        = warned_failures clear_read_only_cmd (events (_set_basic_disks_rw_mode w))).
Proof.
  intros Hty. split.
  - apply bring_disks_online_best_effort; assumption.
  - apply set_basic_disks_rw_best_effort; assumption.
Qed.

Lemma disk2_fails_typed : shell_errors_typed (Sim.machine Scenario.disk2_fails).
Proof. apply sim_errors_typed; repeat constructor. Qed.

Lemma best_effort_steps_attempt_every_disk_witness :
  (outcome (_bring_disks_online (m := Sim.machine Scenario.disk2_fails) None
              (Sim.with_disks [])) = inr tt /\
   execs (events (_bring_disks_online (m := Sim.machine Scenario.disk2_fails) None
                    (Sim.with_disks [])))
     = [offline_disks_query; "Set-Disk -IsOffline $False 1";
        "Set-Disk -IsOffline $False 2"; "Set-Disk -IsOffline $False 3"] /\
   failures (events (_bring_disks_online (m := Sim.machine Scenario.disk2_fails) None
                       (Sim.with_disks [])))
     = [("Set-Disk -IsOffline $False 2", Scenario.command_failed)]) /\
  (outcome (_set_basic_disks_rw_mode (m := Sim.machine Scenario.disk2_fails)
              (Sim.with_disks [])) = inr tt /\
   execs (events (_set_basic_disks_rw_mode (m := Sim.machine Scenario.disk2_fails)
                    (Sim.with_disks [])))
     = [read_only_disks_query; "Set-Disk -IsReadOnly $False 1";
        "Set-Disk -IsReadOnly $False 2"; "Set-Disk -IsReadOnly $False 3"] /\
   failures (events (_set_basic_disks_rw_mode (m := Sim.machine Scenario.disk2_fails)
                       (Sim.with_disks [])))
     = [("Set-Disk -IsReadOnly $False 2", Scenario.command_failed)]).
Proof.
  destruct (best_effort_steps_attempt_every_disk
              (Sim.machine Scenario.disk2_fails) disk2_fails_typed) as [H1 H2].
  split.
  - destruct (H1 (Sim.with_disks []) (Sim.with_disks []) Scenario.three_disks eq_refl)
      as (Ho & He & Hf).
    split; [exact Ho|]. split; [exact He|]. rewrite Hf. vm_compute. reflexivity.
  - destruct (H2 (Sim.with_disks []) (Sim.with_disks []) Scenario.three_disks eq_refl)
      as (Ho & He & Hf).
    split; [exact Ho|]. split; [exact He|]. rewrite Hf. vm_compute. reflexivity.
Defined.

(** ** Dismount *)

(** C8. [dismount_os] behaves in the same way for any two values of its
    root argument, and it is the best-effort pass over the non-boot disks:
    it returns normally whatever per-disk command fails, sends the
    offline command for every disk that the query lists, in order, and
    reports every failure in a warning. *)
Theorem dismount_os_ignores_root (m : Machine) :
  (forall (root1 root2 : string) (w : World m),
      dismount_os root1 w = dismount_os root2 w) /\
  (shell_errors_typed m ->
   forall (root : string) (w w1 : World m) out,
     conn_exec_ps_command m nonboot_disks_query w = (inr out, w1) ->
     outcome (dismount_os root w) = inr tt /\
     execs (events (dismount_os root w))
       = nonboot_disks_query :: map set_offline_cmd (PyStr.splitlines out) /\
     failures (events (dismount_os root w))
       = warned_failures set_offline_cmd (events (dismount_os root w))).
Proof.
  split.
  - reflexivity.
  - intros Hty root w w1 out Hq. unfold dismount_os.
    eapply bring_nonboot_disks_offline_best_effort; eassumption.
Qed.

Lemma dismount_os_ignores_root_witness :
  dismount_os (m := Sim.machine Scenario.disk2_fails) "D:\" (Sim.with_disks [])
    = dismount_os (m := Sim.machine Scenario.disk2_fails) "E:\" (Sim.with_disks []) /\
  outcome (dismount_os (m := Sim.machine Scenario.disk2_fails) "D:\" (Sim.with_disks []))
    = inr tt /\
  execs (events (dismount_os (m := Sim.machine Scenario.disk2_fails) "D:\"
                   (Sim.with_disks [])))
    = [nonboot_disks_query; "Set-Disk -IsOffline $True 1";
       "Set-Disk -IsOffline $True 2"; "Set-Disk -IsOffline $True 3"] /\
  failures (events (dismount_os (m := Sim.machine Scenario.disk2_fails) "D:\"
                      (Sim.with_disks [])))
    = [("Set-Disk -IsOffline $True 2", Scenario.command_failed)].
Proof.
  destruct (dismount_os_ignores_root (Sim.machine Scenario.disk2_fails)) as [H1 H2].
  split.
  - exact (H1 "D:\" "E:\" (Sim.with_disks [])).
  - destruct (H2 disk2_fails_typed "D:\" (Sim.with_disks []) (Sim.with_disks [])
                Scenario.three_disks eq_refl) as (Ho & He & Hf).
    split; [exact Ho|]. split; [exact He|]. rewrite Hf. vm_compute. reflexivity.
Defined.

(** ** Discovery of the filesystem roots *)

(** C9. Splitting a text on a separator never gives an empty list, so
    [_get_fs_roots] returns at least one root for every answer of the
    enumeration, and asking it to fail on an empty list changes nothing:
    its result is the answer split on the line ending, the failure of the
    enumeration itself, or the error of an empty separator, and never the
    error of its own emptiness test.  With a line ending that is not
    empty, every answer of the enumeration gives a list of at least one
    root. *)
Theorem get_fs_roots_never_empty (m : Machine) :
  (forall out sep l, PyStr.split out sep = Some l -> 1 <= List.length l) /\
  (forall w : World m,
      outcome (_get_fs_roots true w) =
      match conn_exec_ps_command m fs_roots_query w with
      | (inl e, _) => inl e
      | (inr out, _) =>
          match PyStr.split out (conn_EOL m) with
          | Some l => inr l
          | None => inl (mk_exn PyException "empty separator")
          end
      end) /\
  (forall w : World m, _get_fs_roots true w = _get_fs_roots false w) /\
  (forall (w w1 : World m) l t,
      _get_fs_roots true w = (inr l, w1, t) -> 1 <= List.length l) /\
  (forall (w w1 : World m) out,
      conn_EOL m <> EmptyString ->
      conn_exec_ps_command m fs_roots_query w = (inr out, w1) ->
      exists l,
        _get_fs_roots true w = (inr l, w1, [EvExec fs_roots_query (inr out)]) /\
        PyStr.split out (conn_EOL m) = Some l /\ 1 <= List.length l).
Proof.
  assert (Hlen : forall out sep l, PyStr.split out sep = Some l -> 1 <= List.length l).
  { intros out sep l H. apply split_nonempty in H.
    destruct l; [congruence | simpl; lia]. }
  assert (Hrun : forall (b : bool) (w : World m),
             _get_fs_roots b w =
             match conn_exec_ps_command m fs_roots_query w with
             | (inl e, w1) => (inl e, w1, [EvExec fs_roots_query (inl e)])
             | (inr out, w1) =>
                 match PyStr.split out (conn_EOL m) with
                 | Some l => (inr l, w1, [EvExec fs_roots_query (inr out)])
                 | None => (inl (mk_exn PyException "empty separator"), w1,
                            [EvExec fs_roots_query (inr out)])
                 end
             end).
  { intros b w. unfold _get_fs_roots, py_split. unfold_comp.
    destruct (conn_exec_ps_command m fs_roots_query w) as [[e|out] w1]; [reflexivity|].
    destruct (PyStr.split out (conn_EOL m)) as [l|] eqn:Hs; [|reflexivity].
    pose proof (Hlen _ _ _ Hs) as Hl.
    destruct l as [|x l]; [simpl in Hl; lia|]. reflexivity. }
  split; [exact Hlen|]. split; [|split; [|split]].
  - intros w. rewrite (Hrun true w).
    destruct (conn_exec_ps_command m fs_roots_query w) as [[e|out] w1]; [reflexivity|].
    destruct (PyStr.split out (conn_EOL m)); reflexivity.
  - intros w. rewrite (Hrun true w), (Hrun false w). reflexivity.
  - intros w w1 l t. rewrite (Hrun true w).
    destruct (conn_exec_ps_command m fs_roots_query w) as [[e|out] w2]; [discriminate|].
    destruct (PyStr.split out (conn_EOL m)) as [l0|] eqn:Hs; [|discriminate].
    intros H; inversion H; subst. eapply Hlen; eassumption.
  - intros w w1 out Heol Hq. rewrite (Hrun true w), Hq.
    destruct (PyStr.split out (conn_EOL m)) as [l|] eqn:Hs.
    + exists l. split; [reflexivity|]. split; [reflexivity|]. eapply Hlen; eassumption.
    + unfold PyStr.split in Hs. destruct (conn_EOL m); [congruence | discriminate].
Qed.

Lemma get_fs_roots_never_empty_witness :
  (PyStr.split EmptyString PyStr.CRLF = Some [EmptyString] /\
   1 <= List.length [EmptyString]) /\
  (_get_fs_roots (m := Sim.machine Scenario.no_roots) true (Sim.with_disks [])
     = (inr [EmptyString], Sim.with_disks [], [EvExec fs_roots_query (inr EmptyString)]) /\
   1 <= List.length [EmptyString]).
Proof.
  destruct (get_fs_roots_never_empty (Sim.machine Scenario.no_roots))
    as (H1 & _ & _ & H4 & _).
  split; (split; [reflexivity|]).
  - exact (H1 EmptyString PyStr.CRLF [EmptyString] eq_refl).
  - exact (H4 (Sim.with_disks []) (Sim.with_disks []) [EmptyString]
              [EvExec fs_roots_query (inr EmptyString)] eq_refl).
Defined.

(** When the enumeration itself keeps failing, the discovery makes the
    configured number of attempts, sleeps the configured delay between two
    attempts, and raises the last failure. *)
Example retry_on_failed_enumeration :
  execs (events (retry_on_error (m := Sim.machine Scenario.roots_query_fails) 3 5
                   (_get_fs_roots true) (Sim.with_disks [])))
    = [fs_roots_query; fs_roots_query; fs_roots_query] /\
  sleeps (events (retry_on_error (m := Sim.machine Scenario.roots_query_fails) 3 5
                    (_get_fs_roots true) (Sim.with_disks [])))
    = [5; 5] /\
  outcome (retry_on_error (m := Sim.machine Scenario.roots_query_fails) 3 5
             (_get_fs_roots true) (Sim.with_disks []))
    = inl Scenario.command_failed.
Proof. repeat split; vm_compute; reflexivity. Qed.

(** C5. When the root enumeration answers with the empty text, the
    discovery step of [mount_os] neither retries nor sleeps nor fails: the
    first attempt returns the list that holds the empty text alone. *)
Theorem fs_roots_discovery_empty_answer (m : Machine) (max_attempts delay : nat)
    (w w1 : World m) :
  conn_EOL m <> EmptyString ->
  conn_exec_ps_command m fs_roots_query w = (inr EmptyString, w1) ->
  retry_on_error max_attempts delay (_get_fs_roots true) w
    = (inr [EmptyString], w1, [EvExec fs_roots_query (inr EmptyString)]).
Proof.
  intros Heol Hq.
  unfold retry_on_error.
  assert (Hrun : _get_fs_roots true w
                 = (inr [EmptyString], w1, [EvExec fs_roots_query (inr EmptyString)])).
  { unfold _get_fs_roots, py_split. unfold_comp. rewrite Hq.
    unfold PyStr.split. destruct (conn_EOL m); [congruence|]. reflexivity. }
  destruct (max_attempts - 1); cbn [retry_loop]; unfold try_except; rewrite Hrun;
    reflexivity.
Qed.

Lemma fs_roots_discovery_empty_answer_witness :
  retry_on_error (m := Sim.machine Scenario.no_roots) 5 5 (_get_fs_roots true)
    (Sim.with_disks [])
  = (inr [EmptyString], Sim.with_disks [], [EvExec fs_roots_query (inr EmptyString)]) /\
  sleeps (events (mount_os (m := Sim.machine Scenario.no_roots) 5 (Sim.with_disks [])))
    = [] /\
  outcome (mount_os (m := Sim.machine Scenario.no_roots) 5 (Sim.with_disks []))
    = inl (mk_exn OperatingSystemNotFound "root partition not found").
Proof.
  split; [|split].
  - apply (fs_roots_discovery_empty_answer (Sim.machine Scenario.no_roots) 5 5
             (Sim.with_disks []) (Sim.with_disks [])).
    + discriminate.
    + reflexivity.
  - vm_compute. reflexivity.
  - vm_compute. reflexivity.
Defined.

(** ** Location of the OS root *)

Lemma bind_returns {m : Machine} {A B} (c : Comp m A) (k : A -> Comp m B)
    (w : World m) (b : B) :
  outcome (bind c k w) = inr b ->
  exists a w1 t1,
    c w = (inr a, w1, t1) /\
    outcome (k a w1) = inr b /\
    events (bind c k w) = t1 ++ events (k a w1).
Proof.
  unfold bind, outcome, events.
  destruct (c w) as [[[e|a] w1] t1]; cbn [fst snd]; [discriminate|].
  intros H. exists a, w1, t1.
  destruct (k a w1) as [[r w2] t2]; cbn [fst snd] in *. auto.
Qed.

Lemma filter_prefix_of_find {A} (f : A -> bool) (l : list A) (x : A) :
  find f l = Some x -> In x l /\ f x = true.
Proof. intros H. apply find_some in H. exact H. Qed.

Section FindRoot.
Context {m : Machine}.
Variable marker_exists : string -> bool.
Hypothesis test_path_pure :
  forall p (w : World m), conn_test_path m p w = (inr (marker_exists p), w).

Lemma find_os_root_run (roots : list string) (w : World m) :
  outcome (find_os_root roots w) =
    match find (fun x => marker_exists (os_marker x)) roots with
    | Some x => inr (x, None)
    | None => inl (mk_exn OperatingSystemNotFound "root partition not found")
    end /\
  (forall p, In p (probes (events (find_os_root roots w))) ->
             exists x, In x roots /\ p = os_marker x).
Proof.
  induction roots as [|r rest IH].
  - split; [reflexivity|]. intros p [].
  - cbn [find_os_root find]. unfold bind, test_path.
    rewrite test_path_pure.
    destruct (marker_exists (os_marker r)) eqn:Hm.
    + split; [reflexivity|].
      intros p [Hp|[]]. exists r. split; [now left | now symmetry].
    + destruct IH as [IHo IHp].
      destruct (find_os_root rest w) as [[res w2] t2].
      unfold outcome, events in *. cbn [fst snd] in *.
      split; [exact IHo|].
      intros p [Hp|Hp].
      * exists r. split; [now left | now symmetry].
      * destruct (IHp p Hp) as (x & Hx & Hpx). exists x. split; [now right | exact Hpx].
Qed.

End FindRoot.

Lemma candidate_roots_in (fs_roots : list string) (system_drive x : string) :
  In x (candidate_roots fs_roots system_drive) <->
  In x fs_roots /\ PyStr.drop_last x <> system_drive.
Proof.
  unfold candidate_roots. rewrite filter_In.
  rewrite negb_true_iff, String.eqb_neq. reflexivity.
Qed.

(** Facts on the final loop of [mount_os] for a probe that answers as a
    fixed predicate: its result is the first candidate whose marker exists,
    and a returned root is a candidate. *)
Lemma mount_os_first_marked_facts (m : Machine)
    (marker_exists : string -> bool) :
  (forall p (w : World m), conn_test_path m p w = (inr (marker_exists p), w)) ->
  (forall (fs_roots : list string) (system_drive : string) (w : World m),
      outcome (find_os_root (candidate_roots fs_roots system_drive) w) =
        match find (fun x => marker_exists (os_marker x))
                   (candidate_roots fs_roots system_drive) with
        | Some x => inr (x, None)
        | None => inl (mk_exn OperatingSystemNotFound "root partition not found")
        end /\
      (forall x md,
          outcome (find_os_root (candidate_roots fs_roots system_drive) w)
            = inr (x, md) ->
          md = None /\ In x fs_roots /\ PyStr.drop_last x <> system_drive /\
          marker_exists (os_marker x) = true) /\
      (forall p,
          In p (probes (events (find_os_root (candidate_roots fs_roots system_drive) w))) ->
          exists x, In x fs_roots /\ PyStr.drop_last x <> system_drive /\
                    p = os_marker x)) /\
  (forall (max_attempts : nat) (w : World m) x md,
      outcome (mount_os max_attempts w) = inr (x, md) ->
      md = None /\ marker_exists (os_marker x) = true /\
      exists system_drive,
        In (EvExec "$env:SystemDrive" (inr system_drive))
           (events (mount_os max_attempts w)) /\
        PyStr.drop_last x <> system_drive).
Proof.
  intros Hpure.
  assert (Hloop : forall (fs_roots : list string) (system_drive : string) (w : World m) x md,
             outcome (find_os_root (candidate_roots fs_roots system_drive) w)
               = inr (x, md) ->
             md = None /\ In x fs_roots /\ PyStr.drop_last x <> system_drive /\
             marker_exists (os_marker x) = true).
  { intros fs_roots system_drive w x md.
    rewrite (proj1 (find_os_root_run marker_exists Hpure _ w)).
    destruct (find _ _) as [y|] eqn:Hf; [|discriminate].
    intros H; inversion H; subst.
    apply filter_prefix_of_find in Hf. destruct Hf as [Hin Hm].
    apply candidate_roots_in in Hin. tauto. }
  split.
  - intros fs_roots system_drive w. split; [|split].
    + apply (find_os_root_run marker_exists Hpure).
    + apply Hloop.
    + intros p Hp.
      destruct (proj2 (find_os_root_run marker_exists Hpure _ w) p Hp) as (x & Hx & Hpx).
      apply candidate_roots_in in Hx. exists x. tauto.
  - intros max_attempts w x md H. unfold mount_os in *.
    apply bind_returns in H. destruct H as (u1 & w1 & t1 & _ & H & E1).
    apply bind_returns in H. destruct H as (u2 & w2 & t2 & _ & H & E2).
    apply bind_returns in H. destruct H as (u3 & w3 & t3 & _ & H & E3).
    apply bind_returns in H. destruct H as (fs_roots & w4 & t4 & _ & H & E4).
    apply bind_returns in H. destruct H as (sd & w5 & t5 & Hsd & H & E5).
    destruct (Hloop fs_roots sd w5 x md H) as (Hmd & _ & Hne & Hm).
    split; [exact Hmd|]. split; [exact Hm|].
    exists sd. split; [|exact Hne].
    rewrite E1, E2, E3, E4, E5.
    unfold _get_system_drive, exec_ps_command in Hsd.
    destruct (conn_exec_ps_command m "$env:SystemDrive" w4) as [r w'].
    inversion Hsd; subst.
    do 4 (apply in_or_app; right). apply in_or_app; left. now left.
Qed.

(** A whole run of [mount_os]: the commands sent, in order, the path
    probed, and the result. *)
Example mount_os_full_run :
  outcome (mount_os (m := Sim.machine Scenario.os_on_d) 5 (Sim.with_disks []))
    = inr ("D:\", None) /\
  execs (events (mount_os (m := Sim.machine Scenario.os_on_d) 5 (Sim.with_disks [])))
    = [offline_disks_query; "Set-Disk -IsOffline $False 1";
       read_only_disks_query; "Set-Disk -IsReadOnly $False 1";
       partitions_query;
       "Set-Partition -NoDefaultDriveLetter $False -DiskNumber 1 -PartitionNumber 2";
       "Set-Disk -IsOffline $True 1"; "Set-Disk -IsOffline $False 1";
       fs_roots_query; "$env:SystemDrive"] /\
  probes (events (mount_os (m := Sim.machine Scenario.os_on_d) 5 (Sim.with_disks [])))
    = ["D:\Windows\System32"].
Proof. repeat split; vm_compute; reflexivity. Qed.

(** ** Facts on text formatting *)

Lemma append_length (a b : string) :
  String.length (a +++ b) = String.length a + String.length b.
Proof. induction a as [|c a IH]; simpl; [reflexivity | now rewrite IH]. Qed.

Lemma append_inv_head (p a b : string) : p +++ a = p +++ b -> a = b.
Proof.
  induction p as [|c p IH]; simpl; intros H; [exact H|].
  inversion H. now apply IH.
Qed.

Lemma append_inv_tail (q : string) : forall a b : string, a +++ q = b +++ q -> a = b.
Proof.
  induction a as [|c a IH]; intros [|d b] H; simpl in H.
  - reflexivity.
  - apply (f_equal String.length) in H. simpl in H. rewrite append_length in H. lia.
  - apply (f_equal String.length) in H. simpl in H. rewrite append_length in H. lia.
  - inversion H. f_equal. now apply IH.
Qed.

Lemma format_go_used_any_arg (n : nat) :
  forall fmt a b, String.length fmt <= n ->
    PyStr.format_go true a fmt = PyStr.format_go true b fmt.
Proof.
  induction n as [|n IH]; intros fmt a b Hn.
  - destruct fmt; [reflexivity | simpl in Hn; lia].
  - destruct fmt as [|c rest]; [reflexivity|].
    cbn [PyStr.format_go]. simpl in Hn.
    destruct (Ascii.eqb c "%").
    + destruct rest as [|d rest']; [reflexivity|].
      destruct (Ascii.eqb d "s"); [reflexivity|].
      destruct (Ascii.eqb d "%"); [|reflexivity].
      simpl in Hn. rewrite (IH rest' a b) by lia. reflexivity.
    + rewrite (IH rest a b) by lia. reflexivity.
Qed.

(** A template either fails for every argument, or surrounds its
    argument with two fixed texts. *)
Lemma format_go_shape (n : nat) :
  forall fmt, String.length fmt <= n ->
    (forall a, PyStr.format_go false a fmt = None) \/
    (exists pre post, forall a, PyStr.format_go false a fmt = Some (pre +++ a +++ post)).
Proof.
  induction n as [|n IH]; intros fmt Hn.
  - destruct fmt; [left; reflexivity | simpl in Hn; lia].
  - destruct fmt as [|c rest]; [left; reflexivity|].
    cbn [PyStr.format_go]. simpl in Hn.
    destruct (Ascii.eqb c "%").
    + destruct rest as [|d rest']; [left; reflexivity|].
      simpl in Hn.
      destruct (Ascii.eqb d "s").
      * destruct (PyStr.format_go true EmptyString rest') as [post|] eqn:Hp.
        -- right. exists EmptyString, post. intros a.
           rewrite (format_go_used_any_arg n rest' a EmptyString) by lia.
           rewrite Hp. reflexivity.
        -- left. intros a.
           rewrite (format_go_used_any_arg n rest' a EmptyString) by lia.
           rewrite Hp. reflexivity.
      * destruct (Ascii.eqb d "%"); [|left; reflexivity].
        destruct (IH rest') as [Hnone|(pre & post & Hsome)]; [lia| |].
        -- left. intros a. rewrite Hnone. reflexivity.
        -- right. exists (String "%" pre), post. intros a. rewrite Hsome. reflexivity.
    + destruct (IH rest) as [Hnone|(pre & post & Hsome)]; [lia| |].
      * left. intros a. rewrite Hnone. reflexivity.
      * right. exists (String c pre), post. intros a. rewrite Hsome. reflexivity.
Qed.

Lemma format1_injective (fmt a b s : string) :
  PyStr.format1 fmt a = Some s -> PyStr.format1 fmt b = Some s -> a = b.
Proof.
  unfold PyStr.format1. intros Ha Hb.
  destruct (format_go_shape (String.length fmt) fmt (le_n _))
    as [Hnone|(pre & post & Hsome)].
  - rewrite Hnone in Ha. discriminate.
  - rewrite Hsome in Ha, Hb. rewrite <- Ha in Hb. inversion Hb as [H].
    apply append_inv_head in H. apply append_inv_tail in H. now symmetry.
Qed.

Lemma mem_true_iff (x : string) (l : list string) : PyStr.mem x l = true <-> In x l.
Proof.
  unfold PyStr.mem. rewrite existsb_exists. split.
  - intros (y & Hy & He). apply String.eqb_eq in He. now subst.
  - intros H. exists x. split; [exact H | apply String.eqb_refl].
Qed.

Lemma Subseq_nil_l {A} (l : list A) : Subseq [] l.
Proof. induction l; constructor; assumption. Qed.

(** ** Facts on the servicing pass *)

Section LoopFacts.
Context {m : Machine} {A : Type}.
Variable body : A -> Comp m unit.

Lemma for_each_cons (x : A) (xs : list A) (w : World m) :
  for_each body (x :: xs) w =
  match body x w with
  | (inl e, w1, t1) => (inl e, w1, t1)
  | (inr _, w1, t1) =>
      match for_each body xs w1 with
      | (r, w2, t2) => (r, w2, t1 ++ t2)
      end
  end.
Proof. reflexivity. Qed.

Lemma for_each_app (l1 l2 : list A) :
  forall (w w1 : World m) t1,
    for_each body l1 w = (inr tt, w1, t1) ->
    for_each body (l1 ++ l2) w =
    match for_each body l2 w1 with
    | (r, w2, t2) => (r, w2, t1 ++ t2)
    end.
Proof.
  induction l1 as [|x l1 IH]; intros w w1 t1 H.
  - cbn in H. inversion H; subst. cbn [app].
    destruct (for_each body l2 w1) as [[r w2] t2]. reflexivity.
  - rewrite for_each_cons in H. cbn [app]. rewrite for_each_cons.
    destruct (body x w) as [[[e|u] wa] ta]; [discriminate|].
    destruct (for_each body l1 wa) as [[r wb] tb] eqn:Hl.
    inversion H; subst.
    rewrite (IH wa w1 tb Hl).
    destruct (for_each body l2 w1) as [[r2 w2] t2].
    rewrite app_assoc. reflexivity.
Qed.

(** A property of the candidates and of the events of the loop holds as
    soon as it holds of the empty trace and is kept when the events of one
    more iteration are put in front. *)
Lemma for_each_trace_ind (P : list A -> trace -> Prop) :
  (forall xs, P xs []) ->
  (forall x xs w t, P xs t -> P (x :: xs) (events (body x w) ++ t)) ->
  forall l w, P l (events (for_each body l w)).
Proof.
  intros Hnil Hstep l.
  induction l as [|x xs IH]; intros w.
  - apply Hnil.
  - rewrite for_each_cons.
    specialize (Hstep x xs w).
    destruct (body x w) as [[[e|u] w1] t1]; unfold events in *; cbn [fst snd] in *.
    + rewrite <- (app_nil_r t1). apply Hstep, Hnil.
    + specialize (IH w1).
      destruct (for_each body xs w1) as [[r w2] t2]; cbn [fst snd] in *.
      apply Hstep, IH.
Qed.

End LoopFacts.

Section ServiceFacts.
Import PyStr Re.
Context {m : Machine}.
Variables (status fmt : string) (soe : bool) (logmsg : string) (skip : list string).

Lemma service_first_match_eq (d : string) (lines : list string) :
  service_first_match (m := m) status fmt soe logmsg d lines =
  if existsb (line_matches d status) lines
  then service_now status fmt soe logmsg d
  else ret tt.
Proof.
  induction lines as [|line rest IH]; [reflexivity|].
  cbn [service_first_match existsb]. unfold line_matches at 1.
  destruct (re_match (curr_disk_entry_re d status) line); [reflexivity | exact IH].
Qed.

Lemma run_script_trace (s : string) (w : World m) :
  announced (events (_run_diskpart_script s w)) = [] /\
  (scripts (events (_run_diskpart_script s w)) = [] \/
   scripts (events (_run_diskpart_script s w)) = [s]) /\
  (forall out, outcome (_run_diskpart_script s w) = inr out ->
               scripts (events (_run_diskpart_script s w)) = [s]).
Proof.
  unfold _run_diskpart_script. unfold_comp. unfold events, outcome.
  destruct (conn_exec_ps_command m "$env:TEMP" w) as [[e|tempdir] w1]; cbn;
    [repeat split; auto; discriminate|].
  destruct (uuid4 m w1) as [u w2].
  destruct (conn_write_file m _ s w2) as [[e|[]] w3]; cbn;
    [repeat split; auto; discriminate|].
  destruct (conn_exec_ps_command m _ w3) as [r w4]; cbn. auto.
Qed.

Lemma service_now_run (d : string) (w : World m) :
  service_now status fmt soe logmsg d w =
  match format1 fmt d with
  | None =>
      (inl (mk_exn PyException "string formatting failed"), w, [announcement logmsg d])
  | Some script =>
      match _run_diskpart_script script w with
      | (inr _, w1, t1) => (inr tt, w1, announcement logmsg d :: t1)
      | (inl e, w1, t1) =>
          if soe
          then (inr tt, w1, announcement logmsg d :: t1 ++ [failure_warning d status script e])
          else (inl e, w1, announcement logmsg d :: t1)
      end
  end.
Proof.
  unfold service_now, py_format, announcement, failure_warning.
  unfold bind, try_except, LOG, emit, ret, raise.
  destruct (format1 fmt d) as [script|]; [|reflexivity].
  destruct (_run_diskpart_script script w) as [[[e|o] w1] t1].
  - destruct soe; cbn; [|rewrite app_nil_r]; reflexivity.
  - cbn. rewrite app_nil_r. reflexivity.
Qed.

Lemma service_candidate_run (d : string) (w : World m) :
  service_candidate status fmt soe logmsg skip d w =
  if mem d skip then
    (inr tt, w, [EvLog LvlWarn "Skipping disk with ID: %s" [AStr d]])
  else
    match _run_diskpart_script disk_list_script w with
    | (inl e, w1, t1) => (inl e, w1, t1)
    | (inr out, w1, t1) =>
        if existsb (line_matches d status) (listing_lines out) then
          match service_now status fmt soe logmsg d w1 with
          | (r, w2, t2) => (r, w2, t1 ++ t2)
          end
        else (inr tt, w1, t1)
    end.
Proof.
  unfold service_candidate.
  destruct (mem d skip); [reflexivity|].
  unfold bind at 1.
  destruct (_run_diskpart_script disk_list_script w) as [[[e|out] w1] t1]; [reflexivity|].
  change (py_split (m := m) out CRLF) with (ret (m := m) (listing_lines out)).
  unfold bind, ret. rewrite service_first_match_eq.
  destruct (existsb (line_matches d status) (listing_lines out)).
  - destruct (service_now status fmt soe logmsg d w1) as [[r w2] t2]. reflexivity.
  - unfold ret. rewrite !app_nil_r. reflexivity.
Qed.

Lemma service_candidate_trace (d : string) (w : World m) :
  (announced (events (service_candidate status fmt soe logmsg skip d w)) = [] \/
   (mem d skip = false /\
    announced (events (service_candidate status fmt soe logmsg skip d w)) = [d])) /\
  iteration_scripts fmt skip d (scripts (events (service_candidate status fmt soe logmsg skip d w))).
Proof.
  rewrite service_candidate_run. unfold iteration_scripts.
  destruct (mem d skip) eqn:Hs; [split; left; reflexivity|].
  destruct (run_script_trace disk_list_script w) as (Ha & Hw & Hok).
  destruct (_run_diskpart_script disk_list_script w) as [[[e|out] w1] t1];
    unfold events, outcome in *; cbn [fst snd] in *.
  - split; [left; exact Ha|]. destruct Hw as [Hw|Hw]; rewrite Hw; auto.
  - specialize (Hok out eq_refl).
    destruct (existsb (line_matches d status) (listing_lines out));
      [|cbn [fst snd]; split; [left; exact Ha | rewrite Hok; auto]].
    rewrite service_now_run.
    destruct (format1 fmt d) as [script|] eqn:Hf.
    + destruct (run_script_trace script w1) as (Ha2 & Hw2 & _).
      assert (Hev : forall t2 tl,
                 announced t2 = [] ->
                 announced (t1 ++ announcement logmsg d :: t2 ++ tl)
                   = d :: announced tl /\
                 scripts (t1 ++ announcement logmsg d :: t2 ++ tl)
                   = disk_list_script :: scripts t2 ++ scripts tl).
      { intros t2 tl Ht2. rewrite announced_app, scripts_app.
        change (announcement logmsg d :: t2 ++ tl)
          with ([announcement logmsg d] ++ t2 ++ tl).
        rewrite !announced_app, !scripts_app, Ha, Ht2, Hok. split; reflexivity. }
      destruct (_run_diskpart_script script w1) as [[[e|o] w2] t2];
        unfold events in *; cbn [fst snd] in *.
      * destruct (Hev t2 (if soe then [failure_warning d status script e] else []) Ha2)
          as [E1 E2].
        destruct soe; cbn [fst snd]; rewrite ?app_nil_r in *; rewrite E1, E2;
          (split; [right; auto|]);
          destruct Hw2 as [Hw2|Hw2]; rewrite Hw2; cbn; eauto 7.
      * destruct (Hev t2 [] Ha2) as [E1 E2]. rewrite app_nil_r in E1, E2.
        rewrite E1, E2. split; [right; auto|].
        destruct Hw2 as [Hw2|Hw2]; rewrite Hw2; cbn; eauto 7.
    + cbn [fst snd]. rewrite announced_app, scripts_app, Ha, Hok. cbn.
      split; [right; auto | auto].
Qed.

End ServiceFacts.

Section PassFacts.
Import PyStr Re.
Context {m : Machine}.
Variables (status fmt : string) (soe : bool) (logmsg : string).

Lemma service_pass_run (oskip : option (list string)) (w : World m) :
  _service_disks_with_status status fmt soe logmsg oskip w =
  match _run_diskpart_script disk_list_script w with
  | (inl e, w1, t1) => (inl e, w1, t1)
  | (inr out, w1, t1) =>
      let ids := servicable_ids status (listing_lines out) in
      match service_loop status fmt soe logmsg
              (match oskip with None => [] | Some l => l end) ids w1 with
      | (r, w2, t2) =>
          (r, w2,
           t1 ++ EvLog LvlDebug "Servicing disks with status '%s' (%s) from disk list: %s"
                   [AStr status; AList ids; AStr out] :: t2)
      end
  end.
Proof.
  unfold _service_disks_with_status.
  unfold bind at 1.
  destruct (_run_diskpart_script disk_list_script w) as [[[e|out] w1] t1]; [reflexivity|].
  change (py_split (m := m) out CRLF) with (ret (m := m) (listing_lines out)).
  unfold bind, ret, LOG, emit.
  destruct (service_loop _ _ _ _ _ _ w1) as [[r w2] t2]. reflexivity.
Qed.

(** The events of a pass: those of the first listing, then, when that
    listing succeeded, one record and the events of the loop over the
    candidates that the listing defines. *)
Lemma service_pass_events (oskip : option (list string)) (w : World m) :
  exists t0 tl,
    events (_service_disks_with_status status fmt soe logmsg oskip w) = t0 ++ tl /\
    announced t0 = [] /\
    (scripts t0 = [] \/ scripts t0 = [disk_list_script]) /\
    (tl = [] \/
     exists (w1 : World m) lvl f args,
       lvl <> LvlInfo /\
       tl = EvLog lvl f args ::
            events (service_loop status fmt soe logmsg
                      (match oskip with None => [] | Some l => l end)
                      (initial_candidates status w) w1)).
Proof.
  rewrite service_pass_run. unfold initial_candidates.
  destruct (run_script_trace disk_list_script w) as (Ha & Hw & _).
  destruct (_run_diskpart_script disk_list_script w) as [[[e|out] w1] t1];
    unfold events in *; cbn [fst snd] in *.
  - exists t1, []. rewrite app_nil_r. auto.
  - cbv zeta.
    destruct (service_loop _ _ _ _ _ _ w1) as [[r w2] t2] eqn:Hl. cbn [snd].
    exists t1. eexists. split; [reflexivity|]. split; [exact Ha|]. split; [exact Hw|].
    right. exists w1. do 3 eexists. split; [|rewrite Hl; reflexivity]. discriminate.
Qed.

End PassFacts.

Section LoopTraceFacts.
Import PyStr Re.
Context {m : Machine}.
Variables (status fmt : string) (soe : bool) (logmsg : string) (skip : list string).

Lemma loop_announced_subseq (ids : list string) (w : World m) :
  Subseq (announced (events (service_loop status fmt soe logmsg skip ids w))) ids.
Proof.
  unfold service_loop.
  apply (for_each_trace_ind (service_candidate status fmt soe logmsg skip)
           (fun l t => Subseq (announced t) l)).
  - intros xs. apply Subseq_nil_l.
  - intros x xs w0 t Ht. rewrite announced_app.
    destruct (service_candidate_trace status fmt soe logmsg skip x w0) as [[Ha|[_ Ha]] _];
      rewrite Ha; cbn [app]; constructor; exact Ht.
Qed.

Lemma loop_announced_not_skipped (ids : list string) (w : World m) (d : string) :
  In d skip ->
  ~ In d (announced (events (service_loop status fmt soe logmsg skip ids w))).
Proof.
  intros Hd. unfold service_loop.
  apply (for_each_trace_ind (service_candidate status fmt soe logmsg skip)
           (fun _ t => ~ In d (announced t))).
  - intros _ [].
  - intros x xs w0 t Ht. rewrite announced_app.
    destruct (service_candidate_trace status fmt soe logmsg skip x w0) as [[Ha|[Hs Ha]] _];
      rewrite Ha; cbn [app]; [exact Ht|].
    intros [Hx|Hin]; [|exact (Ht Hin)].
    subst x. apply mem_true_iff in Hd. congruence.
Qed.

Lemma loop_scripts_count (ids : list string) (w : World m) (d s : string) :
  format1 fmt d = Some s -> s <> disk_list_script ->
  count_occ string_dec (scripts (events (service_loop status fmt soe logmsg skip ids w))) s
    <= count_occ string_dec ids d.
Proof.
  intros Hf Hne. unfold service_loop.
  apply (for_each_trace_ind (service_candidate status fmt soe logmsg skip)
           (fun l t => count_occ string_dec (scripts t) s <= count_occ string_dec l d)).
  - intros xs. cbn. lia.
  - intros x xs w0 t Ht. rewrite scripts_app, count_occ_app.
    destruct (service_candidate_trace status fmt soe logmsg skip x w0)
      as [_ [Hs|[Hs|(_ & s' & Hf' & Hs)]]]; rewrite Hs; cbn [count_occ].
    + destruct (string_dec x d); lia.
    + destruct (string_dec disk_list_script s); [congruence|].
      destruct (string_dec x d); lia.
    + destruct (string_dec disk_list_script s); [congruence|].
      destruct (string_dec s' s) as [E|E].
      * subst s'. rewrite (format1_injective fmt x d s Hf' Hf).
        destruct (string_dec d d); [lia | congruence].
      * destruct (string_dec x d); lia.
Qed.

Lemma loop_scripts_not_skipped (ids : list string) (w : World m) (d s : string) :
  In d skip -> format1 fmt d = Some s -> s <> disk_list_script ->
  ~ In s (scripts (events (service_loop status fmt soe logmsg skip ids w))).
Proof.
  intros Hd Hf Hne. unfold service_loop.
  apply (for_each_trace_ind (service_candidate status fmt soe logmsg skip)
           (fun _ t => ~ In s (scripts t))).
  - intros _ [].
  - intros x xs w0 t Ht. rewrite scripts_app. intros Hin.
    apply in_app_or in Hin. destruct Hin as [Hin|Hin]; [|exact (Ht Hin)].
    destruct (service_candidate_trace status fmt soe logmsg skip x w0)
      as [_ [Hs|[Hs|(Hsk & s' & Hf' & Hs)]]]; rewrite Hs in Hin; cbn [In] in Hin.
    + exact Hin.
    + destruct Hin as [E|[]]. congruence.
    + destruct Hin as [E|[E|[]]]; [congruence|].
      subst s'. rewrite (format1_injective fmt x d s Hf' Hf) in Hsk.
      apply mem_true_iff in Hd. congruence.
Qed.

End LoopTraceFacts.

Lemma announced_log_other (lvl : level) (f : string) (args : list logarg) (t : trace) :
  lvl <> LvlInfo -> announced (EvLog lvl f args :: t) = announced t.
Proof. intros H. destruct lvl; [reflexivity | congruence | reflexivity]. Qed.

Lemma scripts_log (lvl : level) (f : string) (args : list logarg) (t : trace) :
  scripts (EvLog lvl f args :: t) = scripts t.
Proof. reflexivity. Qed.

(** ** The servicing pass *)

(** C3. A pass of [_service_disks_with_status] never services a disk of
    [disk_ids_to_skip]: it neither announces an operation on that disk nor
    submits the service script formatted with its identifier, whatever the
    listings say about the status of the disk. *)
Theorem skipped_disks_never_serviced (m : Machine)
    (status fmt : string) (skip_on_error : bool) (logmsg_fmt : string)
    (disk_ids_to_skip : list string) (w : World m) (d : string) :
  In d disk_ids_to_skip ->
  ~ In d (announced (events (_service_disks_with_status status fmt skip_on_error
                               logmsg_fmt (Some disk_ids_to_skip) w))) /\
  (forall script,
      PyStr.format1 fmt d = Some script ->
      script <> disk_list_script ->
      ~ In script (scripts (events (_service_disks_with_status status fmt skip_on_error
                                      logmsg_fmt (Some disk_ids_to_skip) w)))).
Proof.
  intros Hd.
  destruct (service_pass_events status fmt skip_on_error logmsg_fmt
              (Some disk_ids_to_skip) w) as (t0 & tl & Hev & Ha & Hw & Htl).
  rewrite Hev, announced_app, scripts_app, Ha. cbn [app].
  split.
  - destruct Htl as [Htl|(w1 & lvl & f & args & Hlvl & Htl)]; subst tl.
    + intros [].
    + rewrite announced_log_other by exact Hlvl.
      apply loop_announced_not_skipped. exact Hd.
  - intros script Hf Hne Hin.
    apply in_app_or in Hin. destruct Hin as [Hin|Hin].
    + destruct Hw as [Hw|Hw]; rewrite Hw in Hin; cbn [In] in Hin; intuition congruence.
    + destruct Htl as [Htl|(w1 & lvl & f & args & Hlvl & Htl)]; subst tl.
      * exact Hin.
      * rewrite scripts_log in Hin.
        exact (loop_scripts_not_skipped _ _ _ _ _ _ _ d script Hd Hf Hne Hin).
Qed.

(** Bounds on a pass: the announced disks form an order-preserving
    sub-list of the candidates of the first listing, and the service script
    of a disk is submitted at most as often as that listing names it. *)
Lemma service_pass_bounds (m : Machine)
    (status fmt : string) (skip_on_error : bool) (logmsg_fmt : string)
    (disk_ids_to_skip : option (list string)) (w : World m) :
  Subseq
    (announced (events (_service_disks_with_status status fmt skip_on_error
                          logmsg_fmt disk_ids_to_skip w)))
    (initial_candidates status w) /\
  (forall d, count_occ string_dec
               (announced (events (_service_disks_with_status status fmt skip_on_error
                                     logmsg_fmt disk_ids_to_skip w))) d
             <= count_occ string_dec (initial_candidates status w) d) /\
  (forall d script,
      PyStr.format1 fmt d = Some script ->
      script <> disk_list_script ->
      count_occ string_dec
        (scripts (events (_service_disks_with_status status fmt skip_on_error
                            logmsg_fmt disk_ids_to_skip w))) script
      <= count_occ string_dec (initial_candidates status w) d).
Proof.
  destruct (service_pass_events status fmt skip_on_error logmsg_fmt
              disk_ids_to_skip w) as (t0 & tl & Hev & Ha & Hw & Htl).
  rewrite Hev, announced_app, scripts_app, Ha. cbn [app].
  assert (Hsub : Subseq (announced tl) (initial_candidates status w)).
  { destruct Htl as [Htl|(w1 & lvl & f & args & Hlvl & Htl)]; subst tl.
    - apply Subseq_nil_l.
    - rewrite announced_log_other by exact Hlvl. apply loop_announced_subseq. }
  split; [exact Hsub|]. split.
  - intros d. clear - Hsub.
    induction Hsub as [|x l1 l2 _ IH|x l1 l2 _ IH]; cbn [count_occ].
    + lia.
    + destruct (string_dec x d); lia.
    + destruct (string_dec x d); lia.
  - intros d script Hf Hne. rewrite count_occ_app.
    assert (H0 : count_occ string_dec (scripts t0) script = 0).
    { destruct Hw as [Hw|Hw]; rewrite Hw; cbn [count_occ]; [reflexivity|].
      destruct (string_dec disk_list_script script); [congruence | reflexivity]. }
    rewrite H0. cbn [Nat.add].
    destruct Htl as [Htl|(w1 & lvl & f & args & Hlvl & Htl)]; subst tl.
    + cbn. lia.
    + rewrite scripts_log. apply loop_scripts_count; assumption.
Qed.

(** C2. Before it operates on a candidate, the pass runs the listing
    again and tests the lines of that fresh listing against the entry of
    the candidate: when no line matches, the iteration ends normally with
    the events of the listing alone, so no operation is issued; when a line
    matches, the operation is announced and run in the state that the
    listing left.  On the machine with disks 0 and 1 foreign and disk 2
    online, where importing disk 0 brings disk 1 online as well, the import
    pass submits exactly one service script, for disk 0, and none for
    disk 1. *)
Theorem recheck_before_each_operation (m : Machine) :
  (outcome (_import_foreign_disks (m := Sim.machine Sim.quiet) Scenario.foreign_pair)
     = inr tt /\
   initial_candidates (m := Sim.machine Sim.quiet) "Foreign" Scenario.foreign_pair
     = ["0"; "1"] /\
   announced (events (_import_foreign_disks (m := Sim.machine Sim.quiet)
                        Scenario.foreign_pair)) = ["0"] /\
   scripts (events (_import_foreign_disks (m := Sim.machine Sim.quiet)
                      Scenario.foreign_pair))
     = [disk_list_script; disk_list_script; Sim.import_script "0"; disk_list_script]) /\
  (forall (status fmt : string) (skip_on_error : bool) (logmsg_fmt : string)
          (disk_ids_to_skip : list string) (d : string) (w w1 : World m)
          (out : string) (t1 : trace),
      PyStr.mem d disk_ids_to_skip = false ->
      _run_diskpart_script disk_list_script w = (inr out, w1, t1) ->
      (existsb (line_matches d status) (listing_lines out) = false ->
       service_candidate status fmt skip_on_error logmsg_fmt disk_ids_to_skip d w
         = (inr tt, w1, t1)) /\
      (existsb (line_matches d status) (listing_lines out) = true ->
       forall script,
         PyStr.format1 fmt d = Some script ->
         exists tl,
           events (service_candidate status fmt skip_on_error logmsg_fmt
                     disk_ids_to_skip d w)
             = t1 ++ announcement logmsg_fmt d
                  :: events (_run_diskpart_script script w1) ++ tl /\
           (tl = [] \/ exists e, tl = [failure_warning d status script e]))).
Proof.
  split.
  - repeat split; vm_compute; reflexivity.
  - intros status fmt soe logmsg skip d w w1 out t1 Hs Hl.
    split; intros Hm.
    + rewrite service_candidate_run, Hs, Hl, Hm. reflexivity.
    + intros script Hf.
      rewrite service_candidate_run, Hs, Hl, Hm, service_now_run, Hf.
      destruct (_run_diskpart_script script w1) as [[[e|o] w2] t2];
        unfold events; cbn [fst snd].
      * destruct soe; cbn [snd].
        -- exists [failure_warning d status script e]. split; [reflexivity|]. right; eauto.
        -- exists []. rewrite app_nil_r. split; [reflexivity | now left].
      * exists []. rewrite app_nil_r. split; [reflexivity | now left].
Qed.

(** C4. Take a pass in which the candidates before [d] have been
    processed, the fresh listing still shows [d] with the target status,
    and the service script of [d] fails with [e].  Without [skip_on_error]
    the pass ends there: it raises [e] and its events stop with the failed
    run, so that nothing is issued for the candidates after [d].  With
    [skip_on_error] the failure is logged and the pass goes on with the
    loop over all the candidates after [d], from the state that the failed
    run left. *)
Theorem operation_failure_policy (m : Machine)
    (status fmt : string) (skip_on_error : bool) (logmsg_fmt : string)
    (disk_ids_to_skip : list string)
    (pre : list string) (d : string) (post : list string)
    (w w0 w1 w2 w3 : World m) (out0 out script : string) (e : exn)
    (t0 t1 t2 t3 : trace) :
  _run_diskpart_script disk_list_script w = (inr out0, w0, t0) ->
  servicable_ids status (listing_lines out0) = pre ++ d :: post ->
  service_loop status fmt skip_on_error logmsg_fmt disk_ids_to_skip pre w0
    = (inr tt, w1, t1) ->
  PyStr.mem d disk_ids_to_skip = false ->
  _run_diskpart_script disk_list_script w1 = (inr out, w2, t2) ->
  existsb (line_matches d status) (listing_lines out) = true ->
  PyStr.format1 fmt d = Some script ->
  _run_diskpart_script script w2 = (inl e, w3, t3) ->
  _service_disks_with_status status fmt skip_on_error logmsg_fmt
    (Some disk_ids_to_skip) w =
  if skip_on_error then
    match service_loop status fmt true logmsg_fmt disk_ids_to_skip post w3 with
    | (r, w4, t4) =>
        (r, w4,
         t0 ++ pass_record status (pre ++ d :: post) out0
            :: t1 ++ (t2 ++ announcement logmsg_fmt d
                         :: t3 ++ [failure_warning d status script e]) ++ t4)
    end
  else
    (inl e, w3,
     t0 ++ pass_record status (pre ++ d :: post) out0
        :: t1 ++ (t2 ++ announcement logmsg_fmt d :: t3)).
Proof.
  intros H0 Hids Hpre Hs Hl Hm Hf Hop.
  rewrite service_pass_run, H0. cbv zeta. rewrite Hids.
  unfold service_loop in *.
  rewrite (for_each_app _ pre (d :: post) w0 w1 t1 Hpre).
  rewrite for_each_cons.
  rewrite service_candidate_run, Hs, Hl, Hm, service_now_run, Hf, Hop.
  unfold pass_record.
  destruct skip_on_error.
  - destruct (for_each _ post w3) as [[r w4] t4]. reflexivity.
  - reflexivity.
Qed.

(** ** The theorems at concrete passes *)

Lemma skipped_disks_never_serviced_witness :
  In "0" ["0"] /\
  announced (events (_service_disks_with_status (m := Sim.machine Sim.quiet)
                       "Foreign" Scenario.import_fmt false default_logmsg_fmt
                       (Some ["0"]) Scenario.foreign_pair)) = ["1"] /\
  ~ In "0" (announced (events (_service_disks_with_status (m := Sim.machine Sim.quiet)
                                 "Foreign" Scenario.import_fmt false default_logmsg_fmt
                                 (Some ["0"]) Scenario.foreign_pair))) /\
  ~ In (Sim.import_script "0")
       (scripts (events (_service_disks_with_status (m := Sim.machine Sim.quiet)
                           "Foreign" Scenario.import_fmt false default_logmsg_fmt
                           (Some ["0"]) Scenario.foreign_pair))).
Proof.
  assert (Hin : In "0" ["0"]) by (left; reflexivity).
  destruct (skipped_disks_never_serviced (Sim.machine Sim.quiet)
              "Foreign" Scenario.import_fmt false default_logmsg_fmt ["0"]
              Scenario.foreign_pair "0" Hin) as [Ha Hs].
  split; [exact Hin|]. split; [vm_compute; reflexivity|]. split; [exact Ha|].
  apply (Hs (Sim.import_script "0")); [reflexivity | discriminate].
Defined.

Lemma recheck_before_each_operation_witness :
  scripts (events (_import_foreign_disks (m := Sim.machine Sim.quiet)
                     Scenario.foreign_pair))
    = [disk_list_script; disk_list_script; Sim.import_script "0"; disk_list_script] /\
  scripts (events (service_candidate (m := Sim.machine Sim.quiet)
                     "Foreign" Scenario.import_fmt false default_logmsg_fmt [] "1"
                     (Sim.with_disks [("0", "Online"); ("1", "Online"); ("2", "Online")])))
    = [disk_list_script].
Proof.
  destruct (recheck_before_each_operation (Sim.machine Sim.quiet)) as [Hscen Hgen].
  split; [exact (proj2 (proj2 (proj2 Hscen)))|].
  edestruct (Hgen "Foreign" Scenario.import_fmt false default_logmsg_fmt [] "1"
               (Sim.with_disks [("0", "Online"); ("1", "Online"); ("2", "Online")]))
    as [Hskip _].
  - reflexivity.
  - vm_compute. reflexivity.
  - rewrite Hskip; [|vm_compute; reflexivity]. vm_compute. reflexivity.
Defined.

Lemma operation_failure_policy_witness :
  (outcome (_service_disks_with_status (m := Sim.machine Scenario.import0_fails)
              "Foreign" Scenario.import_fmt false default_logmsg_fmt (Some [])
              Scenario.foreign_pair) = inl Scenario.command_failed /\
   announced (events (_service_disks_with_status (m := Sim.machine Scenario.import0_fails)
                        "Foreign" Scenario.import_fmt false default_logmsg_fmt (Some [])
                        Scenario.foreign_pair)) = ["0"]) /\
  (outcome (_service_disks_with_status (m := Sim.machine Scenario.import0_fails)
              "Foreign" Scenario.import_fmt true default_logmsg_fmt (Some [])
              Scenario.foreign_pair) = inr tt /\
   announced (events (_service_disks_with_status (m := Sim.machine Scenario.import0_fails)
                        "Foreign" Scenario.import_fmt true default_logmsg_fmt (Some [])
                        Scenario.foreign_pair)) = ["0"; "1"]).
Proof.
  split.
  - erewrite (operation_failure_policy (Sim.machine Scenario.import0_fails)
                "Foreign" Scenario.import_fmt false default_logmsg_fmt []
                [] "0" ["1"] Scenario.foreign_pair); cycle 1.
    + vm_compute; reflexivity.
    + vm_compute; reflexivity.
    + vm_compute; reflexivity.
    + reflexivity.
    + vm_compute; reflexivity.
    + vm_compute; reflexivity.
    + vm_compute; reflexivity.
    + vm_compute; reflexivity.
    + split; vm_compute; reflexivity.
  - erewrite (operation_failure_policy (Sim.machine Scenario.import0_fails)
                "Foreign" Scenario.import_fmt true default_logmsg_fmt []
                [] "0" ["1"] Scenario.foreign_pair); cycle 1.
    + vm_compute; reflexivity.
    + vm_compute; reflexivity.
    + vm_compute; reflexivity.
    + reflexivity.
    + vm_compute; reflexivity.
    + vm_compute; reflexivity.
    + vm_compute; reflexivity.
    + vm_compute; reflexivity.
    + split; vm_compute; reflexivity.
Defined.

(** ** Runs that stop at the first failure *)

Lemma app_eq_app_cons {A} (l1 l2 ta tb : list A) (x : A) :
  l1 ++ l2 = ta ++ x :: tb ->
  (exists tb', l1 = ta ++ x :: tb' /\ tb = tb' ++ l2) \/
  (exists ta', l2 = ta' ++ x :: tb /\ ta = l1 ++ ta').
Proof.
  revert ta. induction l1 as [|y l1 IH]; intros ta H.
  - right. exists ta. split; [exact H | reflexivity].
  - destruct ta as [|z ta]; cbn [app] in H.
    + inversion H; subst. left. exists l1. split; reflexivity.
    + inversion H as [[Hy Hl]]. subst z.
      destruct (IH ta Hl) as [(tb' & E1 & E2)|(ta' & E1 & E2)].
      * left. exists tb'. subst. split; reflexivity.
      * right. exists ta'. subst. split; reflexivity.
Qed.

Section FailFast.
Context {m : Machine}.
Variable sel : event -> option exn.
Hypothesis sel_sound : selects_failures sel.

Lemma fail_fast_single {A} (r : exn + A) (w : World m) (ev : event) :
  (forall e, ev_error ev = Some e -> r = inl e) ->
  stops_at sel (r, w, [ev]).
Proof.
  intros H t1 ev' t2 e Heq He. unfold events, outcome in *. cbn [fst snd] in *.
  destruct t1 as [|x t1]; cbn [app] in Heq.
  - inversion Heq; subst. split; [reflexivity | now apply H, sel_sound].
  - inversion Heq as [[Hx Ht]]. destruct t1; discriminate Ht.
Qed.

Lemma fail_fast_silent {A} (r : exn + A) (w : World m) : stops_at sel (r, w, []).
Proof. intros t1 ev t2 e Heq. destruct t1; discriminate Heq. Qed.

Lemma fail_fast_bind {A B} (c : Comp m A) (k : A -> Comp m B) (w : World m) :
  stops_at sel (c w) -> (forall a w1, stops_at sel (k a w1)) -> stops_at sel (bind c k w).
Proof.
  intros Hc Hk. unfold bind.
  destruct (c w) as [[[e|a] w1] t1] eqn:Hcw.
  { intros ta ev tb e0 Heq He.
    destruct (Hc ta ev tb e0 Heq He) as [Ht Ho].
    unfold outcome in *. cbn [fst snd] in *. split; [exact Ht | congruence]. }
  specialize (Hk a w1).
  destruct (k a w1) as [[r w2] t2].
  intros ta ev tb e Heq He. unfold events, outcome in *. cbn [fst snd] in *.
  apply app_eq_app_cons in Heq.
  destruct Heq as [(tb' & E1 & E2)|(ta' & E1 & E2)].
  - destruct (Hc ta ev tb' e E1 He) as [_ Ho]. discriminate Ho.
  - exact (Hk ta' ev tb e E1 He).
Qed.

Lemma fail_fast_exec (cmd : string) (w : World m) : stops_at sel (exec_ps_command cmd w).
Proof.
  unfold exec_ps_command. destruct (conn_exec_ps_command m cmd w) as [r w1].
  apply fail_fast_single. destruct r; cbn; congruence.
Qed.

Lemma fail_fast_write (path data : string) (w : World m) :
  stops_at sel (write_file path data w).
Proof.
  unfold write_file. destruct (conn_write_file m path data w) as [r w1].
  apply fail_fast_single. destruct r; cbn; congruence.
Qed.

Lemma fail_fast_test (path : string) (w : World m) : stops_at sel (test_path path w).
Proof.
  unfold test_path. destruct (conn_test_path m path w) as [r w1].
  apply fail_fast_single. destruct r; cbn; congruence.
Qed.

Lemma fail_fast_log (lvl : level) (f : string) (args : list logarg) (w : World m) :
  stops_at sel (LOG lvl f args w).
Proof. apply fail_fast_single. cbn. discriminate. Qed.

Lemma fail_fast_for_each {A} (body : A -> Comp m unit) :
  (forall x w, stops_at sel (body x w)) ->
  forall l w, stops_at sel (for_each body l w).
Proof.
  intros Hb l. induction l as [|x xs IH]; intros w.
  - apply fail_fast_silent.
  - cbn [for_each]. apply fail_fast_bind; [apply Hb | intros _ w1; apply IH].
Qed.

(** A handler that raises the exception again leaves the run as it is. *)
Lemma try_except_reraise {A} (c : Comp m A) (w : World m) :
  try_except c (fun ex => Some (raise ex)) w = c w.
Proof.
  unfold try_except, raise.
  destruct (c w) as [[[e|a] w1] t1]; [rewrite app_nil_r|]; reflexivity.
Qed.

Lemma fail_fast_run_script (script : string) (w : World m) :
  stops_at sel (_run_diskpart_script script w).
Proof.
  unfold _run_diskpart_script.
  apply fail_fast_bind; [apply fail_fast_exec|]. intros tempdir w1.
  apply fail_fast_bind; [|intros u w2].
  - unfold fresh_uuid. destruct (uuid4 m w1). apply fail_fast_silent.
  - apply fail_fast_bind; [apply fail_fast_write|]. intros _ w3. apply fail_fast_exec.
Qed.

Lemma fail_fast_py_split (s sep : string) (w : World m) : stops_at sel (py_split s sep w).
Proof. unfold py_split. destruct (PyStr.split s sep); apply fail_fast_silent. Qed.

Lemma fail_fast_py_format (fmt arg : string) (w : World m) :
  stops_at sel (py_format fmt arg w).
Proof. unfold py_format. destruct (PyStr.format1 fmt arg); apply fail_fast_silent. Qed.

Lemma fail_fast_service_candidate (status fmt logmsg : string) (skip : list string)
    (d : string) (w : World m) :
  stops_at sel (service_candidate status fmt false logmsg skip d w).
Proof.
  unfold service_candidate.
  destruct (PyStr.mem d skip); [apply fail_fast_log|].
  apply fail_fast_bind; [apply fail_fast_run_script|]. intros out w1.
  apply fail_fast_bind; [apply fail_fast_py_split|]. intros lines w2.
  revert w2. induction lines as [|line rest IH]; intros w2; cbn [service_first_match].
  - apply fail_fast_silent.
  - destruct (Re.re_match _ line); [|apply IH].
    apply fail_fast_bind; [apply fail_fast_log|]. intros _ w3.
    apply fail_fast_bind; [apply fail_fast_py_format|]. intros script w4.
    rewrite try_except_reraise.
    apply fail_fast_bind; [apply fail_fast_run_script|]. intros _ w5.
    apply fail_fast_silent.
Qed.

Lemma fail_fast_enable_drive_letters (parts : list string) :
  forall (disk_nums : list string) (w : World m),
    stops_at sel (enable_drive_letters disk_nums parts w).
Proof.
  induction parts as [|part rest IH]; intros disk_nums w; cbn [enable_drive_letters].
  - apply fail_fast_silent.
  - destruct (PyStr.split_ws part) as [|disk_num [|part_num tl]].
    + apply fail_fast_bind; [apply fail_fast_log | intros _ w1; apply IH].
    + apply fail_fast_bind; [apply fail_fast_log | intros _ w1; apply IH].
    + destruct (negb (PyStr.isnumeric disk_num) || negb (PyStr.isnumeric part_num)).
      * apply fail_fast_bind; [apply fail_fast_log | intros _ w1; apply IH].
      * apply fail_fast_bind; [apply fail_fast_exec | intros _ w1; apply IH].
Qed.

End FailFast.

(** X1. Without [skip_on_error], a pass of [_service_disks_with_status]
    stops at the first remote call that fails, whether it belongs to a
    listing or to a service operation: the failed call is the last event of
    the pass and its error is what the pass raises. *)
Theorem service_pass_stops_at_first_failure (m : Machine)
    (status fmt logmsg_fmt : string) (disk_ids_to_skip : option (list string))
    (w : World m) (t1 t2 : trace) (ev : event) (e : exn) :
  events (_service_disks_with_status status fmt false logmsg_fmt disk_ids_to_skip w)
    = t1 ++ ev :: t2 ->
  ev_error ev = Some e ->
  t2 = [] /\
  outcome (_service_disks_with_status status fmt false logmsg_fmt disk_ids_to_skip w)
    = inl e.
Proof.
  revert t1 ev t2 e.
  change (stops_at ev_error (_service_disks_with_status status fmt false logmsg_fmt
                               disk_ids_to_skip w)).
  assert (Hs : selects_failures ev_error) by (intros ev e H; exact H).
  unfold _service_disks_with_status.
  apply fail_fast_bind; [now apply fail_fast_run_script|]. intros out w1.
  apply fail_fast_bind; [apply fail_fast_py_split|]. intros lines w2.
  apply fail_fast_bind; [now apply fail_fast_log|]. intros _ w3.
  unfold service_loop. apply fail_fast_for_each.
  intros d w4. now apply fail_fast_service_candidate.
Qed.

Lemma service_pass_stops_at_first_failure_witness :
  outcome (_service_disks_with_status (m := Sim.machine Scenario.import0_fails)
             "Foreign" Scenario.import_fmt false default_logmsg_fmt None
             Scenario.foreign_pair) = inl Scenario.command_failed /\
  scripts (events (_service_disks_with_status (m := Sim.machine Scenario.import0_fails)
                     "Foreign" Scenario.import_fmt false default_logmsg_fmt None
                     Scenario.foreign_pair))
    = [disk_list_script; disk_list_script; Sim.import_script "0"].
Proof.
  split; [|vm_compute; reflexivity].
  refine (proj2 (service_pass_stops_at_first_failure
                   (Sim.machine Scenario.import0_fails)
                   "Foreign" Scenario.import_fmt default_logmsg_fmt None
                   Scenario.foreign_pair
                   (removelast (events (_service_disks_with_status
                      (m := Sim.machine Scenario.import0_fails)
                      "Foreign" Scenario.import_fmt false default_logmsg_fmt None
                      Scenario.foreign_pair)))
                   []
                   (EvExec "diskpart.exe /s 'C:\Temp\uuid-c.txt'"
                      (inl Scenario.command_failed))
                   Scenario.command_failed _ _)).
  - vm_compute. reflexivity.
  - reflexivity.
Defined.

(** ** The drive-letter step *)

Lemma execs_cons_exec (c : string) (r : exn + string) (t : trace) :
  execs (EvExec c r :: t) = c :: execs t.
Proof. reflexivity. Qed.

Lemma execs_cons_log (lvl : level) (f : string) (args : list logarg) (t : trace) :
  execs (EvLog lvl f args :: t) = execs t.
Proof. reflexivity. Qed.

Lemma execs_nil : execs [] = [].
Proof. reflexivity. Qed.

Ltac norm_execs :=
  cbn [app]; rewrite ?execs_cons_exec, ?execs_cons_log, ?execs_nil.

Section DriveLetters.
Context {m : Machine}.

Lemma enable_drive_letters_run (parts : list string) :
  forall (disk_nums : list string) (w : World m),
    Forall (fun c => is_set_partition c = true)
           (execs (events (enable_drive_letters disk_nums parts w))) /\
    (forall l, outcome (enable_drive_letters disk_nums parts w) = inr l ->
       l = disk_nums ++ map fst (numeric_partitions parts) /\
       execs (events (enable_drive_letters disk_nums parts w))
         = map set_partition_of (numeric_partitions parts)).
Proof.
  induction parts as [|part rest IH]; intros disk_nums w.
  - cbn. split; [constructor|]. intros l H. inversion H. rewrite app_nil_r. auto.
  - cbn [enable_drive_letters numeric_partitions flat_map].
    fold (numeric_partitions rest).
    assert (Hskip : forall f args (pre : list (string * string)),
               pre = [] ->
               Forall (fun c => is_set_partition c = true)
                 (execs (events ((LOG LvlDebug f args ;;;
                                  enable_drive_letters disk_nums rest) w))) /\
               (forall l,
                   outcome ((LOG LvlDebug f args ;;;
                             enable_drive_letters disk_nums rest) w) = inr l ->
                   l = disk_nums ++ map fst (pre ++ numeric_partitions rest) /\
                   execs (events ((LOG LvlDebug f args ;;;
                                   enable_drive_letters disk_nums rest) w))
                     = map set_partition_of (pre ++ numeric_partitions rest))).
    { intros f args pre ->. unfold bind, LOG, emit.
      destruct (IH disk_nums w) as [Hall Hok].
      destruct (enable_drive_letters disk_nums rest w) as [[r w2] t2].
      unfold outcome, events in *. cbn [fst snd app] in *.
      rewrite execs_cons_log. split; assumption. }
    destruct (PyStr.split_ws part) as [|disk_num [|part_num tl]];
      [apply Hskip; reflexivity | apply Hskip; reflexivity |].
    destruct (PyStr.isnumeric disk_num); cbn [negb orb andb];
      [|apply Hskip; reflexivity].
    destruct (PyStr.isnumeric part_num); cbn [negb orb andb];
      [|apply Hskip; reflexivity].
    unfold bind, exec_ps_command.
    destruct (conn_exec_ps_command m (set_partition_cmd disk_num part_num) w)
      as [[e|o] w1].
    + unfold outcome, events. cbn [fst snd]. split; [|discriminate].
      norm_execs. constructor; [reflexivity | constructor].
    + destruct (IH (disk_nums ++ [disk_num]) w1) as [Hall Hok].
      destruct (enable_drive_letters (disk_nums ++ [disk_num]) rest w1) as [[r w2] t2].
      unfold outcome, events in *. cbn [fst snd] in *.
      norm_execs. split.
      * constructor; [reflexivity | exact Hall].
      * intros l Hl. destruct (Hok l Hl) as [E1 E2]. subst l.
        rewrite <- app_assoc, E2. cbn [map app fst]. auto.
Qed.

(** A best-effort loop that returns has sent the command of every disk. *)
Lemma best_effort_loop_returns (cmd_of : string -> string) (warning : string)
    (disk_nums : list string) :
  forall (w : World m),
    (forall u, outcome (for_each (best_effort cmd_of warning) disk_nums w) = inr u ->
       execs (events (for_each (best_effort cmd_of warning) disk_nums w))
         = map cmd_of disk_nums) /\
    Forall (fun c => exists d, c = cmd_of d)
      (execs (events (for_each (best_effort cmd_of warning) disk_nums w))).
Proof.
  induction disk_nums as [|d ds IH]; intros w.
  - split; [reflexivity | constructor].
  - rewrite for_each_cons. unfold best_effort at 1 3 5. unfold_comp.
    destruct (conn_exec_ps_command m (cmd_of d) w) as [[e|o] w1].
    + destruct (isinstance e CoriolisException).
      * destruct (IH w1) as [Hok Hall].
        destruct (for_each (best_effort cmd_of warning) ds w1) as [[r w2] t2].
        unfold outcome, events in *. cbn [fst snd] in *. norm_execs. split.
        -- intros u Hu. rewrite (Hok u Hu). reflexivity.
        -- constructor; [eauto | exact Hall].
      * unfold outcome, events. cbn [fst snd]. split; [discriminate|].
        norm_execs. constructor; [eauto | constructor].
    + destruct (IH w1) as [Hok Hall].
      destruct (for_each (best_effort cmd_of warning) ds w1) as [[r w2] t2].
      unfold outcome, events in *. cbn [fst snd] in *. norm_execs. split.
      * intros u Hu. rewrite (Hok u Hu). reflexivity.
      * constructor; [eauto | exact Hall].
Qed.

End DriveLetters.

Lemma stops_at_none {m : Machine} {A} (sel : event -> option exn)
    (r : (exn + A) * World m * trace) :
  Forall (fun ev => sel ev = None) (events r) -> stops_at sel r.
Proof.
  intros H t1 ev t2 e Heq He. rewrite Heq in H.
  apply Forall_app in H. destruct H as [_ H]. inversion H; subst. congruence.
Qed.

Lemma set_partition_error_sound : selects_failures set_partition_error.
Proof.
  intros [cmd [e0|o]| | | |] e; cbn; try discriminate.
  destruct (is_set_partition cmd); [auto | discriminate].
Qed.

Section Rebring.
Context {m : Machine}.

Lemma best_effort_events_ind (cmd_of : string -> string) (warning : string)
    (P : event -> Prop) :
  (forall d r, P (EvExec (cmd_of d) r)) ->
  (forall d e, P (EvLog LvlWarn warning [AStr d; AExn e])) ->
  forall (disk_nums : list string) (w : World m),
    Forall P (events (for_each (best_effort cmd_of warning) disk_nums w)).
Proof.
  intros Hx Hl disk_nums w.
  apply (for_each_trace_ind (best_effort cmd_of warning) (fun _ t => Forall P t)).
  - intros _. constructor.
  - intros d ds w0 t Ht. apply Forall_app. split; [|exact Ht].
    unfold best_effort. unfold_comp. unfold events.
    destruct (conn_exec_ps_command m (cmd_of d) w0) as [[e|o] w1].
    + destruct (isinstance e CoriolisException); cbn; repeat constructor; auto.
    + cbn. repeat constructor; auto.
Qed.

Lemma offline_some_run (ds : list string) (w : World m) :
  _bring_nonboot_disks_offline (Some ds) w
  = for_each (best_effort set_offline_cmd
                "Failed setting disk %s offline. Error was: %s") ds w.
Proof.
  unfold _bring_nonboot_disks_offline, bind, ret. unfold best_effort.
  destruct (for_each _ ds w) as [[r w1] t1]. reflexivity.
Qed.

Lemma online_some_run (ds : list string) (w : World m) :
  _bring_disks_online (Some ds) w
  = for_each (best_effort set_online_cmd
                "Failed setting disk %s online. Error was: %s") ds w.
Proof.
  unfold _bring_disks_online, bind, ret. unfold best_effort.
  destruct (for_each _ ds w) as [[r w1] t1]. reflexivity.
Qed.

Lemma rebring_run (ds : list string) (w : World m) :
  _rebring_disks_online (Some ds) w =
  match _bring_nonboot_disks_offline (Some ds) w with
  | (inl e, w1, t1) => (inl e, w1, t1)
  | (inr _, w1, t1) =>
      match _bring_disks_online (Some ds) w1 with
      | (r, w2, t2) => (r, w2, t1 ++ t2)
      end
  end.
Proof. reflexivity. Qed.

Lemma rebring_events (P : event -> Prop) (ds : list string) (w : World m) :
  (forall d r, P (EvExec (set_offline_cmd d) r)) ->
  (forall d r, P (EvExec (set_online_cmd d) r)) ->
  (forall f args, P (EvLog LvlWarn f args)) ->
  Forall P (events (_rebring_disks_online (Some ds) w)).
Proof.
  intros Hoff Hon Hlog. rewrite rebring_run, offline_some_run.
  pose proof (best_effort_events_ind set_offline_cmd
                "Failed setting disk %s offline. Error was: %s" P Hoff
                (fun d e => Hlog _ _) ds w) as H1.
  destruct (for_each _ ds w) as [[[e|u] w1] t1]; [exact H1|].
  rewrite online_some_run.
  pose proof (best_effort_events_ind set_online_cmd
                "Failed setting disk %s online. Error was: %s" P Hon
                (fun d e => Hlog _ _) ds w1) as H2.
  destruct (for_each _ ds w1) as [[r w2] t2].
  unfold events in *. cbn [snd] in *. apply Forall_app. split; assumption.
Qed.

Lemma rebring_returns (ds : list string) (w : World m) (u : unit) :
  outcome (_rebring_disks_online (Some ds) w) = inr u ->
  execs (events (_rebring_disks_online (Some ds) w))
    = map set_offline_cmd ds ++ map set_online_cmd ds.
Proof.
  rewrite rebring_run, offline_some_run.
  destruct (best_effort_loop_returns set_offline_cmd
              "Failed setting disk %s offline. Error was: %s" ds w) as [H1 _].
  destruct (for_each _ ds w) as [[[e|u1] w1] t1];
    unfold outcome, events in *; cbn [fst snd] in *; [discriminate|].
  rewrite online_some_run.
  destruct (best_effort_loop_returns set_online_cmd
              "Failed setting disk %s online. Error was: %s" ds w1) as [H2 _].
  destruct (for_each _ ds w1) as [[r w2] t2];
    unfold outcome, events in *; cbn [fst snd] in *.
  intros Hr. rewrite execs_app, (H1 u1 eq_refl), (H2 u Hr). reflexivity.
Qed.

Lemma set_volumes_run (w : World m) :
  _set_volumes_drive_letter w =
  match conn_exec_ps_command m partitions_query w with
  | (inl e, w1) => (inl e, w1, [EvExec partitions_query (inl e)])
  | (inr out, w1) =>
      if PyStr.truthy out then
        match enable_drive_letters [] (PyStr.splitlines out) w1 with
        | (inl e, w2, t2) =>
            (inl e, w2,
             EvExec partitions_query (inr out)
               :: EvLog LvlDebug "Partitions without default drive letter: %s" [AStr out]
               :: t2)
        | (inr ds, w2, t2) =>
            match _rebring_disks_online (Some ds) w2 with
            | (r, w3, t3) =>
                (r, w3,
                 EvExec partitions_query (inr out)
                   :: EvLog LvlDebug "Partitions without default drive letter: %s"
                        [AStr out]
                   :: t2 ++ t3)
            end
        end
      else (inr tt, w1, [EvExec partitions_query (inr out)])
  end.
Proof.
  unfold _set_volumes_drive_letter. unfold bind at 1. unfold exec_ps_command at 1.
  destruct (conn_exec_ps_command m partitions_query w) as [[e|out] w1]; [reflexivity|].
  destruct (PyStr.truthy out); [|reflexivity].
  unfold bind at 1. unfold LOG, emit. unfold bind.
  destruct (enable_drive_letters [] (PyStr.splitlines out) w1) as [[[e|ds] w2] t2];
    [reflexivity|].
  destruct (_rebring_disks_online (Some ds) w2) as [[r w3] t3]. reflexivity.
Qed.

End Rebring.

(** X2. When [_set_volumes_drive_letter] returns, the commands it has
    sent are the partition query, then one Set-Partition command for each
    line of the answer whose first two fields are numeric, in order, then
    the offline command and then the online command for the disk of each
    such line; with an empty answer it sends the query alone. *)
Theorem set_volumes_drive_letter_commands (m : Machine) (w w1 : World m)
    (out : string) :
  conn_exec_ps_command m partitions_query w = (inr out, w1) ->
  outcome (_set_volumes_drive_letter w) = inr tt ->
  execs (events (_set_volumes_drive_letter w)) =
    partitions_query ::
      (if PyStr.truthy out then
         map set_partition_of (numeric_partitions (PyStr.splitlines out))
         ++ map set_offline_cmd (map fst (numeric_partitions (PyStr.splitlines out)))
         ++ map set_online_cmd (map fst (numeric_partitions (PyStr.splitlines out)))
       else []).
Proof.
  intros Hq. rewrite set_volumes_run, Hq.
  destruct (PyStr.truthy out); [|reflexivity].
  destruct (enable_drive_letters_run (PyStr.splitlines out) [] w1) as [_ Hok].
  destruct (enable_drive_letters [] (PyStr.splitlines out) w1) as [[[e|ds] w2] t2];
    unfold outcome, events in *; cbn [fst snd] in *; [discriminate|].
  destruct (Hok ds eq_refl) as [Hds Hex]. cbn [app] in Hds.
  pose proof (rebring_returns ds w2 tt) as Hre.
  destruct (_rebring_disks_online (Some ds) w2) as [[r w3] t3];
    unfold outcome, events in *; cbn [fst snd] in *.
  intros Hr. rewrite execs_cons_exec, execs_cons_log, execs_app, Hex, (Hre Hr), Hds.
  reflexivity.
Qed.

Lemma set_volumes_drive_letter_commands_witness :
  execs (events (_set_volumes_drive_letter (m := Sim.machine Scenario.os_on_d)
                   (Sim.with_disks [])))
    = [partitions_query;
       "Set-Partition -NoDefaultDriveLetter $False -DiskNumber 1 -PartitionNumber 2";
       "Set-Disk -IsOffline $True 1"; "Set-Disk -IsOffline $False 1"].
Proof.
  rewrite (set_volumes_drive_letter_commands (Sim.machine Scenario.os_on_d)
             (Sim.with_disks []) (Sim.with_disks []) Scenario.partition_table).
  - vm_compute. reflexivity.
  - reflexivity.
  - vm_compute. reflexivity.
Defined.

Lemma stops_at_returned {m : Machine} {A} (sel : event -> option exn)
    (r : (exn + A) * World m * trace) (a : A) :
  stops_at sel r -> outcome r = inr a -> Forall (fun ev => sel ev = None) (events r).
Proof.
  intros Hs Ho. apply Forall_forall. intros ev Hin.
  destruct (sel ev) as [e|] eqn:He; [|reflexivity].
  apply in_split in Hin. destruct Hin as (t1 & t2 & Heq).
  destruct (Hs t1 ev t2 e Heq He) as [_ Hc]. congruence.
Qed.

Lemma rebring_no_set_partition {m : Machine} (ds : list string) (w : World m) :
  Forall (fun ev => set_partition_error ev = None)
         (events (_rebring_disks_online (Some ds) w)).
Proof.
  apply rebring_events.
  - intros d [e|o]; reflexivity.
  - intros d [e|o]; reflexivity.
  - reflexivity.
Qed.

Lemma set_volumes_stops_at_set_partition {m : Machine} (w : World m) :
  stops_at set_partition_error (_set_volumes_drive_letter w).
Proof.
  pose proof set_partition_error_sound as Hs.
  unfold _set_volumes_drive_letter.
  apply fail_fast_bind; [now apply fail_fast_exec|]. intros partitions w1.
  destruct (PyStr.truthy partitions); [|apply fail_fast_silent].
  apply fail_fast_bind; [now apply fail_fast_log|]. intros _ w2.
  apply fail_fast_bind; [now apply fail_fast_enable_drive_letters|]. intros ds w3.
  apply stops_at_none, rebring_no_set_partition.
Qed.

(** X3. When a Set-Partition command of [_set_volumes_drive_letter]
    fails, the step ends there with that error: the failed command is its
    last event, and apart from the partition query every command it has
    sent is a Set-Partition command, so that no disk has been taken offline
    or brought online. *)
Theorem failed_set_partition_aborts (m : Machine) (w : World m)
    (t1 t2 : trace) (cmd : string) (e : exn) :
  events (_set_volumes_drive_letter w) = t1 ++ EvExec cmd (inl e) :: t2 ->
  is_set_partition cmd = true ->
  t2 = [] /\
  outcome (_set_volumes_drive_letter w) = inl e /\
  Forall (fun c => c = partitions_query \/ is_set_partition c = true)
         (execs (events (_set_volumes_drive_letter w))).
Proof.
  intros Heq Hcmd.
  assert (Hsel : set_partition_error (EvExec cmd (inl e)) = Some e)
    by (cbn; rewrite Hcmd; reflexivity).
  destruct (set_volumes_stops_at_set_partition w t1 _ t2 e Heq Hsel) as [Ht Ho].
  split; [exact Ht|]. split; [exact Ho|].
  assert (Hin : In (EvExec cmd (inl e)) (events (_set_volumes_drive_letter w)))
    by (rewrite Heq; apply in_elt).
  clear Heq. revert Ho Hin. rewrite set_volumes_run.
  destruct (conn_exec_ps_command m partitions_query w) as [[e0|out] w1];
    [intros _ _; repeat constructor; auto|].
  destruct (PyStr.truthy out); [|intros _ _; repeat constructor; auto].
  destruct (enable_drive_letters_run (PyStr.splitlines out) [] w1) as [Hall _].
  pose proof (fail_fast_enable_drive_letters set_partition_error
                set_partition_error_sound (PyStr.splitlines out) [] w1) as Hstop.
  destruct (enable_drive_letters [] (PyStr.splitlines out) w1) as [[[e1|ds] w2] t2'].
  - intros _ _. unfold events in *. cbn [snd] in *.
    rewrite execs_cons_exec, execs_cons_log.
    constructor; [now left|].
    eapply Forall_impl; [|exact Hall]. cbn. auto.
  - pose proof (stops_at_returned _ _ ds Hstop eq_refl) as Hnone.
    pose proof (rebring_no_set_partition ds w2) as Hre.
    destruct (_rebring_disks_online (Some ds) w2) as [[r w3] t3].
    unfold events, outcome in *. cbn [fst snd] in *.
    intros _ Hin. exfalso.
    assert (Hforall : Forall (fun ev => set_partition_error ev = None)
                        (EvExec partitions_query (inr out)
                           :: EvLog LvlDebug "Partitions without default drive letter: %s"
                                [AStr out] :: t2' ++ t3)).
    { constructor; [reflexivity|]. constructor; [reflexivity|].
      apply Forall_app. split; assumption. }
    rewrite Forall_forall in Hforall. specialize (Hforall _ Hin). congruence.
Qed.

Lemma failed_set_partition_aborts_witness :
  outcome (_set_volumes_drive_letter (m := Sim.machine Scenario.set_partition_fails)
             (Sim.with_disks [])) = inl Scenario.command_failed /\
  execs (events (_set_volumes_drive_letter (m := Sim.machine Scenario.set_partition_fails)
                   (Sim.with_disks [])))
    = [partitions_query;
       "Set-Partition -NoDefaultDriveLetter $False -DiskNumber 1 -PartitionNumber 2"].
Proof.
  split; [|vm_compute; reflexivity].
  refine (proj1 (proj2 (failed_set_partition_aborts
                   (Sim.machine Scenario.set_partition_fails) (Sim.with_disks [])
                   [EvExec partitions_query (inr Scenario.two_partitions);
                    EvLog LvlDebug "Partitions without default drive letter: %s"
                      [AStr Scenario.two_partitions]]
                   []
                   "Set-Partition -NoDefaultDriveLetter $False -DiskNumber 1 -PartitionNumber 2"
                   Scenario.command_failed _ _))).
  - vm_compute. reflexivity.
  - reflexivity.
Defined.

(** X4. Under the contract of the remote shell, [_rebring_disks_online]
    on a given list of disks returns normally and sends the offline command
    for every disk of the list before the online command for every disk of
    the list, each in list order, whatever command fails in between. *)
Theorem rebring_takes_all_offline_then_online (m : Machine) :
  shell_errors_typed m ->
  forall (disk_nums : list string) (w : World m),
    outcome (_rebring_disks_online (Some disk_nums) w) = inr tt /\
    execs (events (_rebring_disks_online (Some disk_nums) w))
      = map set_offline_cmd disk_nums ++ map set_online_cmd disk_nums.
Proof.
  intros Hty ds w.
  assert (Ho : outcome (_rebring_disks_online (Some ds) w) = inr tt).
  { rewrite rebring_run, offline_some_run.
    destruct (best_effort_loop set_offline_cmd
                "Failed setting disk %s offline. Error was: %s" Hty ds w) as (H1 & _).
    destruct (for_each _ ds w) as [[[e|u] w1] t1];
      unfold outcome in *; cbn [fst] in *; [discriminate|].
    rewrite online_some_run.
    destruct (best_effort_loop set_online_cmd
                "Failed setting disk %s online. Error was: %s" Hty ds w1) as (H2 & _).
    destruct (for_each _ ds w1) as [[r w2] t2]. exact H2. }
  split; [exact Ho|]. exact (rebring_returns ds w tt Ho).
Qed.

Lemma rebring_takes_all_offline_then_online_witness :
  outcome (_rebring_disks_online (m := Sim.machine Scenario.disk2_fails)
             (Some ["1"; "2"]) (Sim.with_disks [])) = inr tt /\
  execs (events (_rebring_disks_online (m := Sim.machine Scenario.disk2_fails)
                   (Some ["1"; "2"]) (Sim.with_disks [])))
    = ["Set-Disk -IsOffline $True 1"; "Set-Disk -IsOffline $True 2";
       "Set-Disk -IsOffline $False 1"; "Set-Disk -IsOffline $False 2"].
Proof.
  exact (rebring_takes_all_offline_then_online (Sim.machine Scenario.disk2_fails)
           disk2_fails_typed ["1"; "2"] (Sim.with_disks [])).
Defined.

(** ** The root search on any machine *)

Lemma find_os_root_shape {m : Machine} (roots : list string) (w : World m) :
  match outcome (find_os_root roots w) with
  | inr (x, md) =>
      md = None /\
      exists pre post,
        roots = pre ++ x :: post /\
        events (find_os_root roots w)
          = map (probe (inr false)) pre ++ [probe (inr true) x]
  | inl e =>
      (e = mk_exn OperatingSystemNotFound "root partition not found" /\
       events (find_os_root roots w) = map (probe (inr false)) roots) \/
      (exists pre x post,
          roots = pre ++ x :: post /\
          events (find_os_root roots w)
            = map (probe (inr false)) pre ++ [probe (inl e) x])
  end.
Proof.
  revert w. induction roots as [|r rest IH]; intros w.
  - cbn. left. split; reflexivity.
  - cbn [find_os_root]. unfold bind, test_path.
    destruct (conn_test_path m (os_marker r) w) as [[e|[|]] w1].
    + cbn. right. exists [], r, rest. split; reflexivity.
    + cbn. split; [reflexivity|]. exists [], rest. split; reflexivity.
    + specialize (IH w1).
      destruct (find_os_root rest w1) as [[[e|[x md]] w2] t2];
        unfold outcome, events in *; cbn [fst snd] in *.
      * destruct IH as [[He Ht]|(pre & x & post & Hr & Ht)].
        -- left. subst. split; reflexivity.
        -- right. exists (r :: pre), x, post. subst. split; reflexivity.
      * destruct IH as (Hmd & pre & post & Hr & Ht).
        split; [exact Hmd|]. exists (r :: pre), post. subst. split; reflexivity.
Qed.

(** X5. On any machine, the final loop of [mount_os] probes the markers
    in the order of its list and stops at the first probe that does not
    answer false: a root it returns, paired with [None], is a root of the
    list whose probe answered true after every earlier root answered false;
    it raises OperatingSystemNotFound after all the roots answered false;
    and a probe that fails ends the loop with its error. *)
Theorem find_os_root_stops_at_first_answer (m : Machine) (roots : list string)
    (w : World m) :
  (forall x md,
      outcome (find_os_root roots w) = inr (x, md) ->
      md = None /\
      exists pre post,
        roots = pre ++ x :: post /\
        events (find_os_root roots w)
          = map (probe (inr false)) pre ++ [probe (inr true) x]) /\
  (forall e,
      outcome (find_os_root roots w) = inl e ->
      (e = mk_exn OperatingSystemNotFound "root partition not found" /\
       events (find_os_root roots w) = map (probe (inr false)) roots) \/
      (exists pre x post,
          roots = pre ++ x :: post /\
          events (find_os_root roots w)
            = map (probe (inr false)) pre ++ [probe (inl e) x])).
Proof.
  pose proof (find_os_root_shape roots w) as H.
  split.
  - intros x md Ho. rewrite Ho in H. exact H.
  - intros e Ho. rewrite Ho in H. exact H.
Qed.

Lemma find_os_root_stops_at_first_answer_witness :
  exists pre post,
    candidate_roots Scenario.roots_cde "C:" = pre ++ "E:\" :: post /\
    events (find_os_root (m := Sim.machine Scenario.os_on_e)
              (candidate_roots Scenario.roots_cde "C:") (Sim.with_disks []))
      = map (probe (inr false)) pre ++ [probe (inr true) "E:\"].
Proof.
  destruct (find_os_root_stops_at_first_answer (Sim.machine Scenario.os_on_e)
              (candidate_roots Scenario.roots_cde "C:") (Sim.with_disks []))
    as [Hret _].
  destruct (Hret "E:\" None) as [_ H].
  - vm_compute. reflexivity.
  - exact H.
Defined.

(** X6. On any machine, a root that [mount_os] returns comes with
    [None], differs from the system drive that the same run reported once
    its last character is dropped, and the last event of the run is the
    probe of the marker under that root, answered true. *)
Theorem mount_os_returns_last_probed_root (m : Machine) (max_attempts : nat)
    (w : World m) (x : string) (md : option string) :
  outcome (mount_os max_attempts w) = inr (x, md) ->
  md = None /\
  exists system_drive t,
    In (EvExec "$env:SystemDrive" (inr system_drive)) t /\
    PyStr.drop_last x <> system_drive /\
    events (mount_os max_attempts w) = t ++ [probe (inr true) x].
Proof.
  intros H. unfold mount_os in *.
  apply bind_returns in H. destruct H as (u1 & w1 & t1 & _ & H & E1).
  apply bind_returns in H. destruct H as (u2 & w2 & t2 & _ & H & E2).
  apply bind_returns in H. destruct H as (u3 & w3 & t3 & _ & H & E3).
  apply bind_returns in H. destruct H as (fs_roots & w4 & t4 & _ & H & E4).
  apply bind_returns in H. destruct H as (sd & w5 & t5 & Hsd & H & E5).
  pose proof (find_os_root_shape (candidate_roots fs_roots sd) w5) as Hshape.
  rewrite H in Hshape. destruct Hshape as (Hmd & pre & post & Hroots & Hev).
  split; [exact Hmd|].
  exists sd, (t1 ++ t2 ++ t3 ++ t4 ++ t5 ++ map (probe (inr false)) pre).
  split; [|split].
  - unfold _get_system_drive, exec_ps_command in Hsd.
    destruct (conn_exec_ps_command m "$env:SystemDrive" w4) as [r w'].
    inversion Hsd; subst.
    do 4 (apply in_or_app; right). apply in_or_app; left. now left.
  - assert (Hin : In x (candidate_roots fs_roots sd))
      by (rewrite Hroots; apply in_elt).
    apply candidate_roots_in in Hin. tauto.
  - rewrite E1, E2, E3, E4, E5, Hev. rewrite <- !app_assoc. reflexivity.
Qed.

Lemma mount_os_returns_last_probed_root_witness :
  exists system_drive t,
    In (EvExec "$env:SystemDrive" (inr system_drive)) t /\
    PyStr.drop_last "E:\" <> system_drive /\
    events (mount_os (m := Sim.machine Scenario.os_on_e) 5 (Sim.with_disks []))
      = t ++ [probe (inr true) "E:\"].
Proof.
  destruct (mount_os_returns_last_probed_root (Sim.machine Scenario.os_on_e) 5
              (Sim.with_disks []) "E:\" None) as [_ H].
  - vm_compute. reflexivity.
  - exact H.
Defined.

(** ** Events of a given kind *)

Section TraceAll.
Context {m : Machine}.
Variable P : event -> Prop.

Lemma all_bind {A B} (c : Comp m A) (k : A -> Comp m B) (w : World m) :
  Forall P (events (c w)) ->
  (forall a w1, Forall P (events (k a w1))) ->
  Forall P (events (bind c k w)).
Proof.
  intros Hc Hk. unfold bind.
  destruct (c w) as [[[e|a] w1] t1]; [exact Hc|].
  specialize (Hk a w1). destruct (k a w1) as [[r w2] t2].
  unfold events in *. cbn [snd] in *. apply Forall_app. split; assumption.
Qed.

Lemma all_try {A} (c : Comp m A) (handler : exn -> option (Comp m A)) (w : World m) :
  Forall P (events (c w)) ->
  (forall e h w1, handler e = Some h -> Forall P (events (h w1))) ->
  Forall P (events (try_except c handler w)).
Proof.
  intros Hc Hh. unfold try_except.
  destruct (c w) as [[[e|a] w1] t1]; [|exact Hc].
  destruct (handler e) as [h|] eqn:He; [|exact Hc].
  specialize (Hh e h w1 He). destruct (h w1) as [[r w2] t2].
  unfold events in *. cbn [snd] in *. apply Forall_app. split; assumption.
Qed.

Lemma all_for_each {A} (body : A -> Comp m unit) :
  (forall x w, Forall P (events (body x w))) ->
  forall l w, Forall P (events (for_each body l w)).
Proof.
  intros Hb l. induction l as [|x xs IH]; intros w.
  - constructor.
  - cbn [for_each]. apply all_bind; [apply Hb | intros _ w1; apply IH].
Qed.

Lemma all_ret {A} (a : A) (w : World m) : Forall P (events (ret a w)).
Proof. constructor. Qed.

Lemma all_raise {A} (e : exn) (w : World m) : Forall P (events (raise (A := A) e w)).
Proof. constructor. Qed.

Lemma all_exec (cmd : string) (w : World m) :
  (forall r, P (EvExec cmd r)) -> Forall P (events (exec_ps_command cmd w)).
Proof.
  intros H. unfold exec_ps_command.
  destruct (conn_exec_ps_command m cmd w) as [r w1]. repeat constructor. apply H.
Qed.

Lemma all_test (path : string) (w : World m) :
  (forall r, P (EvTestPath path r)) -> Forall P (events (test_path path w)).
Proof.
  intros H. unfold test_path.
  destruct (conn_test_path m path w) as [r w1]. repeat constructor. apply H.
Qed.

Lemma all_emit (ev : event) (w : World m) : P ev -> Forall P (events (emit ev w)).
Proof. intros H. repeat constructor. exact H. Qed.

Lemma all_retry {A} (f : Comp m A) (sleep_seconds : nat) :
  (forall w, Forall P (events (f w))) ->
  P (EvSleep sleep_seconds) ->
  forall retries w, Forall P (events (retry_loop retries sleep_seconds f w)).
Proof.
  intros Hf Hs retries. induction retries as [|k IH]; intros w; cbn [retry_loop].
  - apply all_try; [apply Hf | discriminate].
  - apply all_try; [apply Hf|]. intros e h w1 He. inversion He; subst.
    apply all_bind; [apply all_emit, Hs | intros _ w2; apply IH].
Qed.

End TraceAll.

Lemma scripts_none (t : trace) : Forall not_a_write t -> scripts t = [].
Proof.
  induction 1 as [|ev t Hev _ IH]; [reflexivity|].
  destruct ev; cbn in *; try exact IH. contradiction.
Qed.

Section NoWrites.
Context {m : Machine}.

Lemma best_effort_not_a_write (cmd_of : string -> string) (warning : string)
    (ds : list string) (w : World m) :
  Forall not_a_write (events (for_each (best_effort cmd_of warning) ds w)).
Proof. apply best_effort_events_ind; intros; exact I. Qed.

Lemma bring_online_not_a_write (o : option (list string)) (w : World m) :
  Forall not_a_write (events (_bring_disks_online o w)).
Proof.
  unfold _bring_disks_online. apply all_bind.
  - destruct o; [apply all_ret|].
    apply all_bind; [apply all_exec; intros; exact I | intros; apply all_ret].
  - intros l w1. apply (best_effort_not_a_write set_online_cmd).
Qed.

Lemma bring_offline_not_a_write (o : option (list string)) (w : World m) :
  Forall not_a_write (events (_bring_nonboot_disks_offline o w)).
Proof.
  unfold _bring_nonboot_disks_offline. apply all_bind.
  - destruct o; [apply all_ret|].
    apply all_bind; [apply all_exec; intros; exact I | intros; apply all_ret].
  - intros l w1. apply (best_effort_not_a_write set_offline_cmd).
Qed.

Lemma set_rw_not_a_write (w : World m) :
  Forall not_a_write (events (_set_basic_disks_rw_mode w)).
Proof.
  unfold _set_basic_disks_rw_mode. apply all_bind.
  - apply all_exec; intros; exact I.
  - intros l w1. apply (best_effort_not_a_write clear_read_only_cmd).
Qed.

Lemma enable_not_a_write (parts : list string) :
  forall (acc : list string) (w : World m),
    Forall not_a_write (events (enable_drive_letters acc parts w)).
Proof.
  induction parts as [|part rest IH]; intros acc w; cbn [enable_drive_letters].
  - apply all_ret.
  - destruct (PyStr.split_ws part) as [|disk_num [|part_num tl]].
    + apply all_bind; [apply all_emit; exact I | intros; apply IH].
    + apply all_bind; [apply all_emit; exact I | intros; apply IH].
    + destruct (negb (PyStr.isnumeric disk_num) || negb (PyStr.isnumeric part_num)).
      * apply all_bind; [apply all_emit; exact I | intros; apply IH].
      * apply all_bind; [apply all_exec; intros; exact I | intros; apply IH].
Qed.

Lemma set_volumes_not_a_write (w : World m) :
  Forall not_a_write (events (_set_volumes_drive_letter w)).
Proof.
  unfold _set_volumes_drive_letter. apply all_bind.
  - apply all_exec; intros; exact I.
  - intros partitions w1. destruct (PyStr.truthy partitions); [|apply all_ret].
    apply all_bind; [apply all_emit; exact I|]. intros _ w2.
    apply all_bind; [apply enable_not_a_write|]. intros ds w3.
    unfold _rebring_disks_online.
    apply all_bind; [apply bring_offline_not_a_write|]. intros _ w4.
    apply bring_online_not_a_write.
Qed.

Lemma get_fs_roots_not_a_write (b : bool) (w : World m) :
  Forall not_a_write (events (_get_fs_roots b w)).
Proof.
  unfold _get_fs_roots. apply all_bind; [apply all_exec; intros; exact I|].
  intros out w1. apply all_bind.
  - unfold py_split. destruct (PyStr.split out (conn_EOL m)); [apply all_ret | apply all_raise].
  - intros drives w2. destruct (_ && _); [apply all_raise | apply all_ret].
Qed.

Lemma find_os_root_not_a_write (roots : list string) :
  forall w : World m, Forall not_a_write (events (find_os_root roots w)).
Proof.
  induction roots as [|r rest IH]; intros w; cbn [find_os_root].
  - apply all_raise.
  - apply all_bind; [apply all_test; intros; exact I|].
    intros [|] w1; [apply all_ret | apply IH].
Qed.

End NoWrites.

(** X7. No run of [mount_os] or of [dismount_os] writes a file on the
    target machine: neither of them submits a diskpart script, whatever
    the machine answers. *)
Theorem mount_and_dismount_write_no_file (m : Machine) (max_attempts : nat)
    (root_drive : string) (w : World m) :
  scripts (events (mount_os max_attempts w)) = [] /\
  scripts (events (dismount_os root_drive w)) = [].
Proof.
  split; apply scripts_none.
  - unfold mount_os.
    apply all_bind; [apply bring_online_not_a_write|]. intros _ w1.
    apply all_bind; [apply set_rw_not_a_write|]. intros _ w2.
    apply all_bind; [apply set_volumes_not_a_write|]. intros _ w3.
    apply all_bind.
    + unfold retry_on_error. apply all_retry; [|exact I].
      intros w4. apply get_fs_roots_not_a_write.
    + intros fs_roots w4.
      apply all_bind; [apply all_exec; intros; exact I|]. intros sd w5.
      apply find_os_root_not_a_write.
  - unfold dismount_os. apply bring_offline_not_a_write.
Qed.

(** ** The matcher and the disk-entry pattern *)

Lemma append_assoc (a b c : string) : (a +++ b) +++ c = a +++ b +++ c.
Proof. induction a as [|x a IH]; cbn; [reflexivity | now rewrite IH]. Qed.

Lemma prefix_decomp (l : string) :
  forall s, prefix l s = true -> s = l +++ PyStr.skipn_str (String.length l) s.
Proof.
  induction l as [|c l IH]; intros [|d s] H; cbn in *; try reflexivity.
  - discriminate.
  - destruct (ascii_dec c d) as [->|]; [|discriminate].
    f_equal. now apply IH.
Qed.

Lemma prefix_append (l r : string) : prefix l (l +++ r) = true.
Proof.
  induction l as [|c l IH]; cbn.
  - destruct r; reflexivity.
  - destruct (ascii_dec c c); [exact IH | congruence].
Qed.

Lemma skipn_str_append (l r : string) :
  PyStr.skipn_str (String.length l) (l +++ r) = r.
Proof. induction l as [|c l IH]; cbn; [destruct r; reflexivity | exact IH]. Qed.

Lemma firstn_str_append (l r : string) :
  PyStr.firstn_str (String.length l) (l +++ r) = l.
Proof. induction l as [|c l IH]; cbn; [destruct r; reflexivity | now rewrite IH]. Qed.

Lemma consumed_append (pre r : string) : Re.consumed (pre +++ r) r = pre.
Proof.
  unfold Re.consumed. rewrite append_length.
  replace (String.length pre + String.length r - String.length r)
    with (String.length pre) by lia.
  apply firstn_str_append.
Qed.

Section Matcher.
Import PyStr Re.

Lemma run_lit (l s : string) (a : attempt) :
  In a (run (Lit l) s) <-> fst a = [] /\ s = l +++ snd a.
Proof.
  cbn [run]. destruct (prefix l s) eqn:Hp.
  - split.
    + intros [<-|[]]. cbn. split; [reflexivity | now apply prefix_decomp].
    + intros [Hc Hs]. left. destruct a as [c r]. cbn in *. subst c.
      rewrite Hs at 1. now rewrite skipn_str_append.
  - split; [intros [] | intros [_ Hs]].
    rewrite Hs, prefix_append in Hp. discriminate.
Qed.

Lemma plus_cls_sound (p : ascii -> bool) (fuel : nat) :
  forall s a,
    In a (plus_go (run (Cls p)) fuel s) ->
    fst a = [] /\
    exists pre, s = pre +++ snd a /\ pre <> EmptyString /\ forallb_str p pre = true.
Proof.
  induction fuel as [|k IH]; intros s a; cbn [plus_go run];
    (destruct s as [|ch s']; [intros []|]);
    (destruct (p ch) eqn:Hp; [|intros []]);
    cbn [flat_map]; rewrite app_nil_r; intros Hin;
    apply in_app_or in Hin.
  - destruct Hin as [[]|[<-|[]]]. cbn. split; [reflexivity|].
    exists (String ch EmptyString). cbn. rewrite Hp. repeat split; congruence.
  - destruct Hin as [Hin|[<-|[]]].
    + destruct (Nat.ltb _ _); [|destruct Hin].
      destruct (IH s' a Hin) as (Hc & pre & Hs & _ & Hall).
      split; [exact Hc|]. exists (String ch pre). cbn. rewrite Hp, Hall, <- Hs.
      repeat split; congruence.
    + cbn. split; [reflexivity|].
      exists (String ch EmptyString). cbn. rewrite Hp. repeat split; congruence.
Qed.

Lemma plus_cls_complete (p : ascii -> bool) (r : string) :
  forall pre fuel,
    pre <> EmptyString -> forallb_str p pre = true ->
    String.length pre <= S fuel ->
    In ([], r) (plus_go (run (Cls p)) fuel (pre +++ r)).
Proof.
  induction pre as [|ch pre IH]; intros fuel Hne Hall Hlen; [congruence|].
  cbn in Hall. apply andb_true_iff in Hall. destruct Hall as [Hp Hall].
  destruct fuel as [|k]; cbn [plus_go run append]; rewrite Hp;
    cbn [flat_map]; rewrite app_nil_r; apply in_or_app.
  - right. destruct pre; [now left | cbn in Hlen; lia].
  - destruct pre as [|ch2 pre'] eqn:Hpre.
    + right. now left.
    + left. rewrite <- Hpre in *.
      assert (Hlt : Nat.ltb (String.length (pre +++ r))
                            (String.length (String ch (pre +++ r))) = true)
        by (apply Nat.ltb_lt; cbn; lia).
      cbn [append] in Hlt. rewrite Hlt.
      apply IH; [subst; congruence | exact Hall | cbn in Hlen; lia].
Qed.

Lemma run_plus_cls (p : ascii -> bool) (s : string) (a : attempt) :
  In a (run (Plus (Cls p)) s) <->
  fst a = [] /\
  exists pre, s = pre +++ snd a /\ pre <> EmptyString /\ forallb_str p pre = true.
Proof.
  cbn [run]. split.
  - apply plus_cls_sound.
  - destruct a as [c r]. cbn. intros (-> & pre & -> & Hne & Hall).
    apply plus_cls_complete; [exact Hne | exact Hall|].
    rewrite append_length. lia.
Qed.

Lemma run_seq (a b : regex) (s : string) (x : attempt) :
  In x (run (Seq a b) s) <->
  exists c1 mid c2,
    In (c1, mid) (run a s) /\ In (c2, snd x) (run b mid) /\ fst x = c1 ++ c2.
Proof.
  cbn [run]. rewrite in_flat_map. split.
  - intros ([c1 mid] & Ha & Hb). apply in_map_iff in Hb.
    destruct Hb as ([c2 r] & <- & Hb). exists c1, mid, c2. cbn. auto.
  - intros (c1 & mid & c2 & Ha & Hb & Hc). exists (c1, mid). split; [exact Ha|].
    apply in_map_iff. exists (c2, snd x). split; [|exact Hb].
    destruct x as [c r]. cbn in *. now subst.
Qed.

Lemma run_group (a : regex) (s : string) (x : attempt) :
  In x (run (Group a) s) <->
  exists c, In (c, snd x) (run a s) /\ fst x = consumed s (snd x) :: c.
Proof.
  cbn [run]. rewrite in_map_iff. split.
  - intros ([c r] & <- & Ha). exists c. cbn. auto.
  - intros (c & Ha & Hc). exists (c, snd x). split; [|exact Ha].
    destruct x as [c0 r]. cbn in *. now subst.
Qed.

(** The attempts of the disk-entry pattern, for an identifier pattern
    whose attempts capture nothing and are described by [accepts]. *)
Lemma run_disk_entry (id_pattern : regex) (accepts : string -> Prop)
    (status line : string) (x : attempt) :
  (forall s a, In a (run id_pattern s) <->
               fst a = [] /\ exists id, s = id +++ snd a /\ accepts id) ->
  In x (run (disk_entry_re id_pattern status) line) <->
  exists id, fst x = [id] /\ accepts id /\ entry_shape id status line (snd x).
Proof.
  intros Hid. unfold disk_entry_re, entry_shape, blanks. split.
  - intros H.
    apply run_seq in H. destruct H as (c1 & s1 & k1 & H1 & H & E1).
    apply run_plus_cls in H1. cbn in H1. destruct H1 as (-> & ws1 & -> & Hws1).
    apply run_seq in H. destruct H as (c2 & s2 & k2 & H2 & H & E2).
    apply run_lit in H2. cbn in H2. destruct H2 as (-> & Hs1).
    apply run_seq in H. destruct H as (c3 & s3 & k3 & H3 & H & E3).
    apply run_group in H3. cbn in H3. destruct H3 as (c & H3 & ->).
    apply Hid in H3. cbn in H3. destruct H3 as (-> & id & Hs2 & Hacc).
    apply run_seq in H. destruct H as (c4 & s4 & k4 & H4 & H & E4).
    apply run_plus_cls in H4. cbn in H4. destruct H4 as (-> & ws2 & Hs3 & Hws2).
    apply run_seq in H. destruct H as (c5 & s5 & k5 & H5 & H & E5).
    apply run_lit in H5. cbn in H5. destruct H5 as (-> & Hs4).
    apply run_plus_cls in H. cbn in H. destruct H as (Hk5 & ws3 & Hs5 & Hws3).
    cbn in *. subst k1 k2 k3 k4 k5.
    exists id. split; [|split; [exact Hacc|]].
    + rewrite E1. cbn. f_equal. subst s2. apply consumed_append.
    + exists ws1, ws2, ws3. repeat split; try tauto.
      subst s1 s2 s3 s4 s5. reflexivity.
  - intros (id & Hc & Hacc & ws1 & ws2 & ws3 & Hws1 & Hws2 & Hws3 & Hline).
    destruct x as [c r]. cbn [fst snd] in *. subst c line.
    apply run_seq. exists [], ("Disk " +++ id +++ ws2 +++ status +++ ws3 +++ r), [id].
    split; [apply run_plus_cls; cbn; split; [reflexivity|]; exists ws1; tauto|].
    split; [|reflexivity].
    apply run_seq. exists [], (id +++ ws2 +++ status +++ ws3 +++ r), [id].
    split; [apply run_lit; cbn; split; reflexivity|]. split; [|reflexivity].
    apply run_seq. exists [id], (ws2 +++ status +++ ws3 +++ r), [].
    split.
    { apply run_group. exists []. cbn. split; [|now rewrite consumed_append].
      apply Hid. cbn. split; [reflexivity|]. exists id. auto. }
    split; [|reflexivity].
    apply run_seq. exists [], (status +++ ws3 +++ r), [].
    split; [apply run_plus_cls; cbn; split; [reflexivity|]; exists ws2; tauto|].
    split; [|reflexivity].
    apply run_seq. exists [], (ws3 +++ r), [].
    split; [apply run_lit; cbn; split; reflexivity|]. split; [|reflexivity].
    apply run_plus_cls. cbn. split; [reflexivity|]. exists ws3. tauto.
Qed.

Lemma run_search (status line : string) (x : attempt) :
  In x (run (search_disk_entry_re status) line) <->
  exists id, fst x = [id] /\ digits id /\ entry_shape id status line (snd x).
Proof.
  apply run_disk_entry. intros s a. rewrite run_plus_cls. unfold digits.
  split; intros (Hc & id & Hs & H); (split; [exact Hc|]); exists id; tauto.
Qed.

Lemma run_curr (d status line : string) (x : attempt) :
  In x (run (curr_disk_entry_re d status) line) <->
  fst x = [d] /\ entry_shape d status line (snd x).
Proof.
  unfold curr_disk_entry_re.
  rewrite (run_disk_entry (Lit d) (fun id => id = d)).
  - split.
    + intros (id & Hc & -> & Hs). auto.
    + intros (Hc & Hs). exists d. auto.
  - intros s a. rewrite run_lit. split.
    + intros (Hc & Hs). split; [exact Hc|]. exists d. auto.
    + intros (Hc & id & Hs & ->). auto.
Qed.

End Matcher.

Section DiskEntries.
Import PyStr Re.

Lemma re_match_some (r : regex) (s : string) (g : list string) :
  re_match r s = Some g -> exists rest, In (g, rest) (run r s).
Proof.
  unfold re_match. destruct (run r s) as [|[g0 rest] tl]; [discriminate|].
  intros H; inversion H; subst. exists rest. now left.
Qed.

Lemma re_match_attempt (r : regex) (s : string) (a : attempt) :
  In a (run r s) -> exists g, re_match r s = Some g.
Proof.
  unfold re_match. destruct (run r s) as [|[g0 rest] tl]; [intros []|]. eauto.
Qed.

Lemma span_unique (p : ascii -> bool) :
  forall a a' x x',
    forallb_str p a = true -> forallb_str p a' = true ->
    starts_outside p x -> starts_outside p x' ->
    a +++ x = a' +++ x' -> a = a' /\ x = x'.
Proof.
  induction a as [|c a IH]; intros [|c' a'] x x' Ha Ha' Hx Hx' E; cbn in *.
  - auto.
  - subst x. cbn in Hx. apply andb_true_iff in Ha'. destruct Ha'. congruence.
  - subst x'. cbn in Hx'. apply andb_true_iff in Ha. destruct Ha. congruence.
  - inversion E; subst.
    apply andb_true_iff in Ha, Ha'. destruct Ha as [_ Ha], Ha' as [_ Ha'].
    destruct (IH a' x x' Ha Ha' Hx Hx' H1) as [-> ->]. auto.
Qed.

Lemma space_not_digit (c : ascii) : isspace c = true -> isdigit09 c = false.
Proof.
  destruct c as [[] [] [] [] [] [] [] []]; vm_compute; congruence.
Qed.

Lemma blanks_start (ws x : string) :
  blanks ws -> starts_outside isdigit09 (ws +++ x).
Proof.
  intros [Hne Hall]. destruct ws as [|c ws]; [congruence|].
  cbn in *. apply andb_true_iff in Hall. destruct Hall as [Hc _].
  now apply space_not_digit.
Qed.

Lemma entry_shape_unique (d1 d2 status line r1 r2 : string) :
  digits d1 -> digits d2 ->
  entry_shape d1 status line r1 -> entry_shape d2 status line r2 -> d1 = d2.
Proof.
  intros [_ Hd1] [_ Hd2]
         (a1 & b1 & c1 & [_ Ha1] & Hb1 & _ & E1) (a2 & b2 & c2 & [_ Ha2] & Hb2 & _ & E2).
  rewrite E1 in E2.
  apply (span_unique isspace) in E2; try assumption; try reflexivity.
  destruct E2 as [_ E2]. apply append_inv_head in E2.
  apply (span_unique isdigit09) in E2; try assumption; try (now apply blanks_start).
  tauto.
Qed.

Lemma servicable_ids_in (status : string) (lines : list string) (d : string) :
  In d (servicable_ids status lines) <->
  exists line g,
    In line lines /\ re_match (search_disk_entry_re status) line = Some g /\
    d = group1 g.
Proof.
  unfold servicable_ids. rewrite in_flat_map. split.
  - intros (line & Hl & Hd).
    destruct (re_match (search_disk_entry_re status) line) as [g|] eqn:Hm; [|destruct Hd].
    destruct Hd as [<-|[]]. eauto.
  - intros (line & g & Hl & Hm & ->). exists line. split; [exact Hl|].
    rewrite Hm. now left.
Qed.

(** A line from which the candidate list takes [d] shows a digit string
    and passes the test of the inner loop for [d]. *)
Lemma search_match_facts (status line : string) (g : list string) :
  re_match (search_disk_entry_re status) line = Some g ->
  g = [group1 g] /\ digits (group1 g) /\
  (exists rest, entry_shape (group1 g) status line rest) /\
  line_matches (group1 g) status line = true.
Proof.
  intros Hm. apply re_match_some in Hm. destruct Hm as (rest & Hin).
  apply run_search in Hin. cbn in Hin. destruct Hin as (id & -> & Hd & Hs).
  cbn. split; [reflexivity|]. split; [exact Hd|]. split; [eauto|].
  unfold line_matches.
  assert (Hc : In ([id], rest) (run (curr_disk_entry_re id status) line))
    by (apply run_curr; cbn; auto).
  apply re_match_attempt in Hc. destruct Hc as (g & ->). reflexivity.
Qed.

Lemma candidate_passes_recheck (status : string) (lines : list string) (d : string) :
  In d (servicable_ids status lines) ->
  existsb (line_matches d status) lines = true.
Proof.
  intros Hd. apply servicable_ids_in in Hd.
  destruct Hd as (line & g & Hl & Hm & ->).
  apply existsb_exists. exists line. split; [exact Hl|].
  now apply search_match_facts.
Qed.

End DiskEntries.

(** X8. For a status without pattern metacharacters, every candidate
    that the pass reads off a listing is a non-empty string of decimal
    digits. *)
Theorem candidates_are_digit_strings (status : string) (lines : list string)
    (d : string) :
  plain_status status = true ->
  In d (servicable_ids status lines) -> digits d.
Proof.
  intros _ Hd. apply servicable_ids_in in Hd.
  destruct Hd as (line & g & _ & Hm & ->).
  now apply search_match_facts in Hm.
Qed.

Lemma candidates_are_digit_strings_witness :
  plain_status "Foreign" = true /\
  servicable_ids "Foreign" Scenario.listing_1_10 = ["1"; "10"] /\ digits "10".
Proof.
  split; [reflexivity|].
  split; [vm_compute; reflexivity|].
  apply (candidates_are_digit_strings "Foreign" Scenario.listing_1_10 "10");
    [reflexivity|].
  vm_compute. auto.
Defined.

(** X9. For a status without pattern metacharacters, the two uses of the
    disk-entry pattern agree: a candidate read off a listing passes the
    test of the inner loop against the same listing, so that a candidate
    whose lines have not changed is found again. *)
Theorem candidate_found_again_in_same_listing (status : string)
    (lines : list string) (d : string) :
  plain_status status = true ->
  In d (servicable_ids status lines) ->
  existsb (line_matches d status) lines = true.
Proof.
  intros _ Hd. apply servicable_ids_in in Hd.
  destruct Hd as (line & g & Hl & Hm & ->).
  destruct (search_match_facts status line g Hm) as (_ & _ & _ & Hline).
  apply existsb_exists. exists line. split; [exact Hl | exact Hline].
Qed.

Lemma candidate_found_again_in_same_listing_witness :
  plain_status "Foreign" = true /\
  existsb (line_matches "10" "Foreign") Scenario.listing_1_10 = true.
Proof.
  split; [reflexivity|].
  apply (candidate_found_again_in_same_listing "Foreign" Scenario.listing_1_10 "10");
    [reflexivity|].
  vm_compute. auto.
Defined.

(** X10. For a status without pattern metacharacters and a string of
    digits [d], a line passes the test of the inner loop for [d] exactly
    when [d] is the candidate that the line yields: the entry of one disk
    is never taken for the entry of another one, such as disk 1 for
    disk 10. *)
Theorem recheck_matches_own_lines_only (status line d : string) :
  plain_status status = true ->
  digits d ->
  (line_matches d status line = true <-> servicable_ids status [line] = [d]).
Proof.
  intros _ Hd. split.
  - unfold line_matches.
    destruct (Re.re_match (curr_disk_entry_re d status) line) as [g|] eqn:Hm;
      [|discriminate].
    intros _. apply re_match_some in Hm. destruct Hm as (rest & Hin).
    apply run_curr in Hin. cbn in Hin. destruct Hin as [_ Hshape].
    assert (Hs : In ([d], rest) (Re.run (search_disk_entry_re status) line))
      by (apply run_search; cbn; eauto).
    apply re_match_attempt in Hs. destruct Hs as (g' & Hm').
    destruct (search_match_facts status line g' Hm') as (_ & Hd' & (rest' & Hshape') & _).
    unfold servicable_ids. cbn [flat_map]. rewrite Hm'. cbn [app].
    f_equal. exact (entry_shape_unique _ _ _ _ _ _ Hd' Hd Hshape' Hshape).
  - intros Hids.
    assert (Hin : In d (servicable_ids status [line])) by (rewrite Hids; now left).
    apply candidate_passes_recheck in Hin. cbn in Hin.
    now rewrite orb_false_r in Hin.
Qed.

Lemma recheck_matches_own_lines_only_witness :
  plain_status "Foreign" = true /\
  line_matches "10" "Foreign" Scenario.line_of_disk_10 = true /\
  line_matches "1" "Foreign" Scenario.line_of_disk_10 = false.
Proof.
  assert (Hp : plain_status "Foreign" = true) by reflexivity.
  assert (H10 : digits "10") by (split; [discriminate | reflexivity]).
  assert (H1 : digits "1") by (split; [discriminate | reflexivity]).
  split; [exact Hp|]. split.
  - apply (recheck_matches_own_lines_only "Foreign" Scenario.line_of_disk_10 "10" Hp H10).
    vm_compute. reflexivity.
  - destruct (line_matches "1" "Foreign" Scenario.line_of_disk_10) eqn:E; [|reflexivity].
    apply (recheck_matches_own_lines_only "Foreign" Scenario.line_of_disk_10 "1" Hp H1) in E.
    vm_compute in E. discriminate E.
Defined.

(** ** A pass over a listing that does not change *)

Section SteadyListing.
Import PyStr.
Context {m : Machine}.
Variable Inv : World m -> Prop.
Variables (status fmt : string) (soe : bool) (logmsg : string) (skip : list string).
Variable out : string.

Hypothesis run_keeps : forall s w, Inv w -> Inv (final (_run_diskpart_script s w)).
Hypothesis listing_steady :
  forall w, Inv w -> outcome (_run_diskpart_script disk_list_script w) = inr out.
Hypothesis failures_tolerated :
  soe = true \/
  forall s w, Inv w -> exists o, outcome (_run_diskpart_script s w) = inr o.
Hypothesis fmt_valid : forall d, format1 fmt d <> None.

Lemma steady_candidate (d : string) (w : World m) :
  Inv w ->
  existsb (line_matches d status) (listing_lines out) = true ->
  exists w' t,
    service_candidate status fmt soe logmsg skip d w = (inr tt, w', t) /\
    Inv w' /\
    announced t = if mem d skip then [] else [d].
Proof.
  intros Hw Hm. rewrite service_candidate_run.
  destruct (mem d skip); [exists w; eexists; repeat split; assumption|].
  pose proof (run_keeps disk_list_script w Hw) as Hk1.
  pose proof (listing_steady w Hw) as Hl.
  destruct (run_script_trace disk_list_script w) as (Ha1 & _ & _).
  destruct (_run_diskpart_script disk_list_script w) as [[r1 w1] t1].
  unfold outcome, final, events in *. cbn [fst snd] in *. subst r1.
  rewrite Hm, service_now_run.
  destruct (format1 fmt d) as [script|] eqn:Hf; [|destruct (fmt_valid d Hf)].
  pose proof (run_keeps script w1 Hk1) as Hk2.
  destruct (run_script_trace script w1) as (Ha2 & _ & _).
  assert (Hok : soe = true \/ exists o, outcome (_run_diskpart_script script w1) = inr o).
  { destruct failures_tolerated as [H|H]; [now left | right; now apply H]. }
  destruct (_run_diskpart_script script w1) as [[[e|o] w2] t2];
    unfold outcome, final, events in *; cbn [fst snd] in *.
  - destruct Hok as [->|[o Ho]]; [|discriminate].
    exists w2. eexists. split; [reflexivity|]. split; [exact Hk2|].
    rewrite announced_app. change (announcement logmsg d :: t2 ++ [failure_warning d status script e])
      with ([announcement logmsg d] ++ t2 ++ [failure_warning d status script e]).
    rewrite !announced_app, Ha1, Ha2. reflexivity.
  - exists w2. eexists. split; [reflexivity|]. split; [exact Hk2|].
    rewrite announced_app. change (announcement logmsg d :: t2)
      with ([announcement logmsg d] ++ t2).
    rewrite announced_app, Ha1, Ha2. reflexivity.
Qed.

Lemma steady_loop (ids : list string) :
  forall w,
    Inv w ->
    (forall d, In d ids -> existsb (line_matches d status) (listing_lines out) = true) ->
    exists w' t,
      service_loop status fmt soe logmsg skip ids w = (inr tt, w', t) /\
      Inv w' /\
      announced t = filter (fun d => negb (mem d skip)) ids.
Proof.
  induction ids as [|d ids IH]; intros w Hw Hall.
  - exists w, []. repeat split. exact Hw.
  - destruct (steady_candidate d w Hw (Hall d (or_introl eq_refl)))
      as (w1 & t1 & Hb & Hw1 & Ha1).
    destruct (IH w1 Hw1 (fun d' H => Hall d' (or_intror H)))
      as (w2 & t2 & Hl & Hw2 & Ha2).
    exists w2, (t1 ++ t2). unfold service_loop in *.
    rewrite for_each_cons, Hb, Hl. split; [reflexivity|]. split; [exact Hw2|].
    rewrite announced_app, Ha1, Ha2. cbn [filter].
    destruct (mem d skip); reflexivity.
Qed.

Lemma steady_pass (w : World m) :
  Inv w ->
  outcome (_service_disks_with_status status fmt soe logmsg (Some skip) w) = inr tt /\
  announced (events (_service_disks_with_status status fmt soe logmsg (Some skip) w))
    = filter (fun d => negb (mem d skip)) (servicable_ids status (listing_lines out)).
Proof.
  intros Hw. rewrite service_pass_run.
  pose proof (run_keeps disk_list_script w Hw) as Hk1.
  pose proof (listing_steady w Hw) as Hl.
  destruct (run_script_trace disk_list_script w) as (Ha1 & _ & _).
  destruct (_run_diskpart_script disk_list_script w) as [[r1 w1] t1].
  unfold outcome, final, events in *. cbn [fst snd] in *. subst r1. cbv zeta.
  destruct (steady_loop (servicable_ids status (listing_lines out)) w1 Hk1
              (fun d H => candidate_passes_recheck status _ d H))
    as (w2 & t2 & Hloop & _ & Ha2).
  rewrite Hloop. cbn [fst snd]. split; [reflexivity|].
  rewrite announced_app, Ha1. cbn [app].
  rewrite announced_log_other by discriminate. exact Ha2.
Qed.

End SteadyListing.

(** X11. Let the status hold no pattern metacharacter, let the machine
    stay within states in which the listing keeps giving the same answer,
    and let either [skip_on_error] be set or no script fail.  Then a pass
    of [_service_disks_with_status] with a valid template returns normally
    and operates, in listing order, on exactly the candidates of that
    listing that are not in [disk_ids_to_skip]. *)
Theorem steady_listing_services_every_candidate (m : Machine)
    (Inv : World m -> Prop)
    (status fmt : string) (skip_on_error : bool) (logmsg_fmt : string)
    (disk_ids_to_skip : list string) (out : string) (w : World m) :
  plain_status status = true ->
  (forall s w, Inv w -> Inv (final (_run_diskpart_script s w))) ->
  (forall w, Inv w -> outcome (_run_diskpart_script disk_list_script w) = inr out) ->
  (skip_on_error = true \/
   forall s w, Inv w -> exists o, outcome (_run_diskpart_script s w) = inr o) ->
  (forall d, PyStr.format1 fmt d <> None) ->
  Inv w ->
  outcome (_service_disks_with_status status fmt skip_on_error logmsg_fmt
             (Some disk_ids_to_skip) w) = inr tt /\
  announced (events (_service_disks_with_status status fmt skip_on_error logmsg_fmt
                       (Some disk_ids_to_skip) w))
    = filter (fun d => negb (PyStr.mem d disk_ids_to_skip))
        (servicable_ids status (listing_lines out)).
Proof.
  intros _ H1 H2 H3 H4 Hw.
  exact (steady_pass Inv status fmt skip_on_error logmsg_fmt disk_ids_to_skip out
           H1 H2 H3 H4 w Hw).
Qed.

(** *** The steady pass on the simulated machine *)

Lemma drop_last_snoc (s : string) (c : ascii) :
  PyStr.drop_last (s +++ String c EmptyString) = s.
Proof.
  induction s as [|a s IH]; [reflexivity|].
  cbn [append PyStr.drop_last]. rewrite IH.
  destruct s; reflexivity.
Qed.

Lemma prefix_empty (s : string) : prefix EmptyString s = true.
Proof. destruct s; reflexivity. Qed.

Lemma sim_exec_diskpart (cfg : Sim.config) (path : string) (w : Sim.world) :
  Sim.cfg_failing cfg = [] ->
  Sim.exec cfg ("diskpart.exe /s '" +++ path +++ "'") w =
  match Sim.assoc path (Sim.files w) with
  | Some script => Sim.run_script cfg script w
  | None => (inl (mk_exn CoriolisException "script file not found"), w)
  end.
Proof.
  intros Hnf. unfold Sim.exec. rewrite Hnf. cbn [Sim.assoc].
  cbn -[Sim.run_script Sim.assoc PyStr.drop_last].
  rewrite prefix_empty, drop_last_snoc. reflexivity.
Qed.

(** A run of a script on the simulated machine, when no command is set
    to fail: the script is written to a fresh file and handed to the
    simulated diskpart. *)
Lemma sim_run_diskpart (cfg : Sim.config) (script : string) (w : Sim.world) :
  Sim.cfg_failing cfg = [] ->
  exists path files n,
    let w3 := Sim.mk_world (Sim.disks w) ((path, script) :: files) n in
    _run_diskpart_script (m := Sim.machine cfg) script w =
    (fst (Sim.run_script cfg script w3), snd (Sim.run_script cfg script w3),
     [EvExec "$env:TEMP" (inr "C:\Temp");
      EvWrite path script (inr tt);
      EvExec ("diskpart.exe /s '" +++ path +++ "'")
        (fst (Sim.run_script cfg script w3))]).
Proof.
  intros Hnf.
  exists ("C:\Temp" +++ "\" +++ ("uuid-" +++ PyStr.chr (97 + Sim.uuid_counter w)) +++ ".txt"),
         (Sim.files w), (S (Sim.uuid_counter w)).
  cbv zeta. unfold _run_diskpart_script. unfold_comp.
  cbn [conn_exec_ps_command conn_write_file uuid4 Sim.machine].
  assert (Htemp : Sim.exec cfg "$env:TEMP" w = (inr "C:\Temp", w)).
  { unfold Sim.exec. rewrite Hnf. reflexivity. }
  rewrite Htemp. unfold Sim.uuid, Sim.write. cbn [Sim.disks Sim.files Sim.uuid_counter].
  rewrite sim_exec_diskpart by exact Hnf.
  cbn [Sim.files Sim.assoc]. rewrite String.eqb_refl.
  destruct (Sim.run_script cfg script _) as [r w4]. reflexivity.
Qed.

Lemma import_group_settled :
  Sim.import_group Scenario.settled_disks = Scenario.settled_disks.
Proof. reflexivity. Qed.

Lemma sim_run_script_settled (cfg : Sim.config) (script : string) (w : Sim.world) :
  Scenario.settled w -> Scenario.settled (snd (Sim.run_script cfg script w)).
Proof.
  unfold Scenario.settled, Sim.run_script. intros Hw.
  destruct (Sim.assoc script (Sim.cfg_failing_scripts cfg)); [exact Hw|].
  destruct (String.eqb script _); [exact Hw|].
  destruct (existsb _ _); [|exact Hw].
  cbn [snd Sim.disks]. rewrite Hw. apply import_group_settled.
Qed.

Lemma settled_kept (script : string) (w : Sim.world) :
  Scenario.settled w ->
  Scenario.settled (final (_run_diskpart_script (m := Sim.machine Sim.quiet) script w)).
Proof.
  intros Hw.
  destruct (sim_run_diskpart Sim.quiet script w eq_refl) as (path & files & n & Hrun).
  cbv zeta in Hrun. rewrite Hrun. unfold final. cbn [fst snd].
  apply sim_run_script_settled. exact Hw.
Qed.

Lemma settled_listing (w : Sim.world) :
  Scenario.settled w ->
  outcome (_run_diskpart_script (m := Sim.machine Sim.quiet) disk_list_script w)
    = inr (Sim.render Scenario.settled_disks).
Proof.
  intros Hw.
  destruct (sim_run_diskpart Sim.quiet disk_list_script w eq_refl)
    as (path & files & n & Hrun).
  cbv zeta in Hrun. rewrite Hrun. unfold outcome. cbn [fst].
  unfold Sim.run_script. cbn [Sim.cfg_failing_scripts Sim.quiet Sim.assoc].
  change (String.eqb disk_list_script ("LIST DISK" +++ PyStr.CRLF +++ "EXIT")) with true.
  cbn [fst Sim.disks]. rewrite Hw. reflexivity.
Qed.

Lemma steady_listing_services_every_candidate_witness :
  outcome (_service_disks_with_status (m := Sim.machine Sim.quiet)
             "Online" Scenario.clear_readonly_fmt true default_logmsg_fmt (Some ["2"])
             (Sim.with_disks Scenario.settled_disks)) = inr tt /\
  announced (events (_service_disks_with_status (m := Sim.machine Sim.quiet)
                       "Online" Scenario.clear_readonly_fmt true default_logmsg_fmt
                       (Some ["2"]) (Sim.with_disks Scenario.settled_disks)))
    = ["0"].
Proof.
  destruct (steady_listing_services_every_candidate (Sim.machine Sim.quiet)
              Scenario.settled "Online" Scenario.clear_readonly_fmt true
              default_logmsg_fmt ["2"] (Sim.render Scenario.settled_disks)
              (Sim.with_disks Scenario.settled_disks)) as [Ho Ha].
  - reflexivity.
  - exact settled_kept.
  - exact settled_listing.
  - left. reflexivity.
  - intros d. vm_compute. discriminate.
  - reflexivity.
  - split; [exact Ho|]. rewrite Ha. vm_compute. reflexivity.
Defined.

(** ** The scripts of a pass *)

Section PassScripts.
Import PyStr.
Context {m : Machine}.
Variables (status fmt : string) (soe : bool) (logmsg : string) (skip : list string).

Lemma loop_scripts_from_candidates (ids : list string) (w : World m) (s : string) :
  In s (scripts (events (service_loop status fmt soe logmsg skip ids w))) ->
  s = disk_list_script \/
  exists d, In d ids /\ mem d skip = false /\ format1 fmt d = Some s.
Proof.
  unfold service_loop. revert s.
  apply (for_each_trace_ind (service_candidate status fmt soe logmsg skip)
           (fun l t => forall s, In s (scripts t) ->
              s = disk_list_script \/
              exists d, In d l /\ mem d skip = false /\ format1 fmt d = Some s)).
  - intros _ s [].
  - intros x xs w0 t Ht s Hin. rewrite scripts_app in Hin.
    apply in_app_or in Hin. destruct Hin as [Hin|Hin].
    + destruct (service_candidate_trace status fmt soe logmsg skip x w0)
        as [_ [Hs|[Hs|(Hsk & s' & Hf' & Hs)]]]; rewrite Hs in Hin; cbn [In] in Hin.
      * destruct Hin.
      * destruct Hin as [<-|[]]. now left.
      * destruct Hin as [<-|[<-|[]]]; [now left|].
        right. exists x. split; [now left | auto].
    + destruct (Ht s Hin) as [->|(d & Hd & Hrest)]; [now left|].
      right. exists d. split; [now right | exact Hrest].
Qed.

Lemma pass_scripts_from_candidates (oskip : option (list string)) (w : World m)
    (s : string) :
  skip = match oskip with None => [] | Some l => l end ->
  In s (scripts (events (_service_disks_with_status status fmt soe logmsg oskip w))) ->
  s = disk_list_script \/
  exists d, In d (initial_candidates status w) /\ mem d skip = false /\
            format1 fmt d = Some s.
Proof.
  intros Hskip Hin.
  destruct (service_pass_events status fmt soe logmsg oskip w)
    as (t0 & tl & Hev & _ & Hw & Htl).
  rewrite Hev, scripts_app in Hin. apply in_app_or in Hin.
  destruct Hin as [Hin|Hin].
  - destruct Hw as [Hw|Hw]; rewrite Hw in Hin; cbn [In] in Hin; [destruct Hin|].
    destruct Hin as [<-|[]]. now left.
  - destruct Htl as [->|(w1 & lvl & f & args & _ & ->)]; [destruct Hin|].
    rewrite scripts_log, <- Hskip in Hin.
    now apply loop_scripts_from_candidates in Hin.
Qed.

End PassScripts.

(** X12. The two foreign-disk passes only ever select disks that their
    first listing showed as foreign: every script that
    [_set_foreign_disks_rw_mode] or [_import_foreign_disks] submits is the
    listing script, or the clear-read-only script, respectively the import
    script, of a candidate of that listing, whose identifier is a string of
    digits. *)
Theorem foreign_passes_select_listed_disks (m : Machine) (w : World m) (s : string) :
  (In s (scripts (events (_set_foreign_disks_rw_mode w))) ->
   s = disk_list_script \/
   exists d, In d (initial_candidates "Foreign" w) /\ digits d /\
             s = clear_readonly_script d) /\
  (In s (scripts (events (_import_foreign_disks w))) ->
   s = disk_list_script \/
   exists d, In d (initial_candidates "Foreign" w) /\ digits d /\
             s = import_script d).
Proof.
  assert (Hdig : forall d, In d (initial_candidates (m := m) "Foreign" w) -> digits d).
  { intros d. unfold initial_candidates.
    destruct (_run_diskpart_script disk_list_script w) as [[[e|out] w1] t1]; [intros []|].
    intros Hd. apply servicable_ids_in in Hd.
    destruct Hd as (line & g & _ & Hm & ->). now apply search_match_facts in Hm. }
  split; intros Hin.
  - unfold _set_foreign_disks_rw_mode in Hin.
    apply (pass_scripts_from_candidates _ _ _ _ [] None w s eq_refl) in Hin.
    destruct Hin as [->|(d & Hd & _ & Hf)]; [now left|].
    right. exists d. split; [exact Hd|]. split; [now apply Hdig|].
    inversion Hf. reflexivity.
  - unfold _import_foreign_disks in Hin.
    apply (pass_scripts_from_candidates _ _ _ _ [] None w s eq_refl) in Hin.
    destruct Hin as [->|(d & Hd & _ & Hf)]; [now left|].
    right. exists d. split; [exact Hd|]. split; [now apply Hdig|].
    inversion Hf. reflexivity.
Qed.

Lemma foreign_passes_select_listed_disks_witness :
  Sim.import_script "0" = disk_list_script \/
  exists d, In d (initial_candidates (m := Sim.machine Sim.quiet) "Foreign"
                    Scenario.foreign_pair) /\
            digits d /\ Sim.import_script "0" = import_script d.
Proof.
  apply (proj2 (foreign_passes_select_listed_disks (Sim.machine Sim.quiet)
                  Scenario.foreign_pair (Sim.import_script "0"))).
  vm_compute. auto.
Defined.

(** ** The candidate roots *)

Lemma drop_last_shorter (s : string) :
  s <> EmptyString -> PyStr.drop_last s <> s.
Proof.
  intros Hne Heq. apply (f_equal String.length) in Heq.
  assert (Hlen : forall t, t <> EmptyString ->
                   S (String.length (PyStr.drop_last t)) = String.length t).
  { induction t as [|c t IH]; [congruence|]. intros _.
    destruct t as [|c' t']; [reflexivity|].
    change (PyStr.drop_last (String c (String c' t')))
      with (String c (PyStr.drop_last (String c' t'))).
    cbn [String.length]. rewrite IH by discriminate. reflexivity. }
  specialize (Hlen s Hne). lia.
Qed.

(** X13. The filter of [mount_os] leaves out every root that is the
    system drive followed by one more character, such as its separator; but
    a root that is reported exactly as the system drive, and the empty
    root, stay candidates when the system drive is not the empty text. *)
Theorem candidate_roots_edges (fs_roots : list string) (system_drive : string) :
  (forall c, ~ In (system_drive +++ String c EmptyString)
                  (candidate_roots fs_roots system_drive)) /\
  (system_drive <> EmptyString ->
   In system_drive fs_roots ->
   In system_drive (candidate_roots fs_roots system_drive)) /\
  (system_drive <> EmptyString ->
   In EmptyString fs_roots ->
   In EmptyString (candidate_roots fs_roots system_drive)).
Proof.
  split; [|split].
  - intros c Hin. apply candidate_roots_in in Hin. destruct Hin as [_ Hne].
    apply Hne, drop_last_snoc.
  - intros Hne Hin. apply candidate_roots_in. split; [exact Hin|].
    now apply drop_last_shorter.
  - intros Hne Hin. apply candidate_roots_in. split; [exact Hin|].
    cbn. congruence.
Qed.

Lemma candidate_roots_edges_witness :
  ~ In "C:\" (candidate_roots ["C:\"; "C:"; EmptyString] "C:") /\
  In "C:" (candidate_roots ["C:\"; "C:"; EmptyString] "C:") /\
  In EmptyString (candidate_roots ["C:\"; "C:"; EmptyString] "C:").
Proof.
  destruct (candidate_roots_edges ["C:\"; "C:"; EmptyString] "C:") as (H1 & H2 & H3).
  split; [exact (H1 "\"%char)|]. split.
  - apply H2; [discriminate | cbn; auto].
  - apply H3; [discriminate | cbn; auto].
Defined.

(** ** What the best-effort steps do not absorb *)

Lemma outside_error_sound : selects_failures outside_error.
Proof.
  intros [cmd [e0|o]| | | |] e; cbn [outside_error ev_error]; try discriminate.
  destruct (isinstance e0 CoriolisException); [discriminate | auto].
Qed.

Section Outside.
Context {m : Machine}.

Lemma best_effort_stops_outside (cmd_of : string -> string) (warning : string)
    (d : string) (w : World m) :
  stops_at outside_error (best_effort cmd_of warning d w).
Proof.
  unfold best_effort. unfold_comp.
  destruct (conn_exec_ps_command m (cmd_of d) w) as [[e|o] w1].
  - destruct (isinstance e CoriolisException) eqn:Hc.
    + apply stops_at_none. unfold events. cbn [snd app].
      constructor; [cbn [outside_error]; now rewrite Hc|].
      repeat constructor.
    + apply fail_fast_single; [exact outside_error_sound|].
      cbn [ev_error]. congruence.
  - apply stops_at_none. repeat constructor.
Qed.

Lemma bring_online_stops_outside (o : option (list string)) (w : World m) :
  stops_at outside_error (_bring_disks_online o w).
Proof.
  pose proof outside_error_sound as Hs.
  unfold _bring_disks_online. apply fail_fast_bind.
  - destruct o; [apply fail_fast_silent|].
    apply fail_fast_bind; [now apply fail_fast_exec | intros; apply fail_fast_silent].
  - intros l w1. apply fail_fast_for_each. intros d w2.
    apply (best_effort_stops_outside set_online_cmd).
Qed.

Lemma bring_offline_stops_outside (o : option (list string)) (w : World m) :
  stops_at outside_error (_bring_nonboot_disks_offline o w).
Proof.
  pose proof outside_error_sound as Hs.
  unfold _bring_nonboot_disks_offline. apply fail_fast_bind.
  - destruct o; [apply fail_fast_silent|].
    apply fail_fast_bind; [now apply fail_fast_exec | intros; apply fail_fast_silent].
  - intros l w1. apply fail_fast_for_each. intros d w2.
    apply (best_effort_stops_outside set_offline_cmd).
Qed.

Lemma set_rw_stops_outside (w : World m) :
  stops_at outside_error (_set_basic_disks_rw_mode w).
Proof.
  pose proof outside_error_sound as Hs.
  unfold _set_basic_disks_rw_mode. apply fail_fast_bind; [now apply fail_fast_exec|].
  intros l w1. apply fail_fast_for_each. intros d w2.
  apply (best_effort_stops_outside clear_read_only_cmd).
Qed.

End Outside.

(** X14. The best-effort steps absorb only errors of the
    remote-execution family: when a command of [_bring_disks_online], of
    [_set_basic_disks_rw_mode] or of [dismount_os] fails with an exception
    outside that family, the step ends there with that exception, and the
    remaining disks are not attempted. *)
Theorem best_effort_steps_stop_at_outside_error (m : Machine) (w : World m)
    (t1 t2 : trace) (cmd : string) (e : exn) :
  isinstance e CoriolisException = false ->
  (forall disk_nums,
      events (_bring_disks_online disk_nums w) = t1 ++ EvExec cmd (inl e) :: t2 ->
      t2 = [] /\ outcome (_bring_disks_online disk_nums w) = inl e) /\
  (events (_set_basic_disks_rw_mode w) = t1 ++ EvExec cmd (inl e) :: t2 ->
   t2 = [] /\ outcome (_set_basic_disks_rw_mode w) = inl e) /\
  (forall root_drive,
      events (dismount_os root_drive w) = t1 ++ EvExec cmd (inl e) :: t2 ->
      t2 = [] /\ outcome (dismount_os root_drive w) = inl e).
Proof.
  intros Hout.
  assert (Hsel : outside_error (EvExec cmd (inl e)) = Some e)
    by (cbn [outside_error]; rewrite Hout; reflexivity).
  split; [|split].
  - intros o Heq. exact (bring_online_stops_outside o w t1 _ t2 e Heq Hsel).
  - intros Heq. exact (set_rw_stops_outside w t1 _ t2 e Heq Hsel).
  - intros root Heq. unfold dismount_os in *.
    exact (bring_offline_stops_outside None w t1 _ t2 e Heq Hsel).
Qed.

Lemma best_effort_steps_stop_at_outside_error_witness :
  outcome (_bring_disks_online (m := Sim.machine Scenario.disk2_breaks) None
             (Sim.with_disks [])) = inl Scenario.connection_lost /\
  execs (events (_bring_disks_online (m := Sim.machine Scenario.disk2_breaks) None
                   (Sim.with_disks [])))
    = [offline_disks_query; "Set-Disk -IsOffline $False 1";
       "Set-Disk -IsOffline $False 2"].
Proof.
  split; [|vm_compute; reflexivity].
  refine (proj2 (proj1 (best_effort_steps_stop_at_outside_error
                   (Sim.machine Scenario.disk2_breaks) (Sim.with_disks [])
                   [EvExec offline_disks_query (inr Scenario.three_disks);
                    EvExec "Set-Disk -IsOffline $False 1" (inr EmptyString)]
                   []
                   "Set-Disk -IsOffline $False 2" Scenario.connection_lost eq_refl)
                 None _)).
  vm_compute. reflexivity.
Defined.

(** ** The root that a whole run returns *)

Lemma mount_os_split {m : Machine} (max_attempts : nat) (w : World m) :
  mount_os max_attempts w =
  match discover_roots max_attempts w with
  | (inl e, w5, t) => (inl e, w5, t)
  | (inr (fs_roots, system_drive), w5, t) =>
      match find_os_root (candidate_roots fs_roots system_drive) w5 with
      | (r, w6, t6) => (r, w6, t ++ t6)
      end
  end.
Proof.
  unfold mount_os, discover_roots, bind.
  destruct (_bring_disks_online None w) as [[[e|u1] w1] t1]; [reflexivity|].
  destruct (_set_basic_disks_rw_mode w1) as [[[e|u2] w2] t2]; [reflexivity|].
  destruct (_set_volumes_drive_letter w2) as [[[e|u3] w3] t3]; [reflexivity|].
  destruct (retry_on_error max_attempts 5 (_get_fs_roots true) w3)
    as [[[e|fs_roots] w4] t4]; [reflexivity|].
  destruct (_get_system_drive w4) as [[[e|sd] w5] t5]; [reflexivity|].
  unfold ret.
  destruct (find_os_root (candidate_roots fs_roots sd) w5) as [[r w6] t6].
  rewrite app_nil_r, <- !app_assoc. reflexivity.
Qed.

Section DiscoveryEvents.
Context {m : Machine}.
Variable P : event -> Prop.
Hypothesis P_exec : forall cmd r, P (EvExec cmd r).
Hypothesis P_log : forall lvl f args, P (EvLog lvl f args).
Hypothesis P_sleep : forall n, P (EvSleep n).

Lemma best_effort_commands (cmd_of : string -> string) (warning : string)
    (ds : list string) (w : World m) :
  Forall P (events (for_each (best_effort cmd_of warning) ds w)).
Proof. apply best_effort_events_ind; intros; auto. Qed.

Lemma enable_commands (parts : list string) :
  forall (acc : list string) (w : World m),
    Forall P (events (enable_drive_letters acc parts w)).
Proof.
  induction parts as [|part rest IH]; intros acc w; cbn [enable_drive_letters].
  - apply all_ret.
  - destruct (PyStr.split_ws part) as [|disk_num [|part_num tl]].
    + apply all_bind; [apply all_emit; auto | intros; apply IH].
    + apply all_bind; [apply all_emit; auto | intros; apply IH].
    + destruct (negb (PyStr.isnumeric disk_num) || negb (PyStr.isnumeric part_num)).
      * apply all_bind; [apply all_emit; auto | intros; apply IH].
      * apply all_bind; [apply all_exec; auto | intros; apply IH].
Qed.

(** The discovery steps only send commands, write records and sleep. *)
Lemma discover_roots_commands (max_attempts : nat) (w : World m) :
  Forall P (events (discover_roots max_attempts w)).
Proof.
  unfold discover_roots.
  apply all_bind.
  { unfold _bring_disks_online. apply all_bind.
    - apply all_bind; [apply all_exec; auto | intros; apply all_ret].
    - intros l w1. apply (best_effort_commands set_online_cmd). }
  intros _ w1. apply all_bind.
  { unfold _set_basic_disks_rw_mode. apply all_bind; [apply all_exec; auto|].
    intros l w2. apply (best_effort_commands clear_read_only_cmd). }
  intros _ w2. apply all_bind.
  { unfold _set_volumes_drive_letter. apply all_bind; [apply all_exec; auto|].
    intros partitions w3. destruct (PyStr.truthy partitions); [|apply all_ret].
    apply all_bind; [apply all_emit; auto|]. intros _ w4.
    apply all_bind; [apply enable_commands|]. intros ds w5.
    unfold _rebring_disks_online. apply all_bind.
    - rewrite offline_some_run. apply (best_effort_commands set_offline_cmd).
    - intros _ w6. rewrite online_some_run.
      apply (best_effort_commands set_online_cmd). }
  intros _ w3. apply all_bind.
  { unfold retry_on_error. apply all_retry; [|auto].
    intros w4. unfold _get_fs_roots. apply all_bind; [apply all_exec; auto|].
    intros out w5. apply all_bind.
    - unfold py_split. destruct (PyStr.split out (conn_EOL m));
        [apply all_ret | apply all_raise].
    - intros drives w6. destruct (_ && _); [apply all_raise | apply all_ret]. }
  intros fs_roots w4. apply all_bind; [apply all_exec; auto|].
  intros sd w5. apply all_ret.
Qed.

End DiscoveryEvents.

Lemma probes_none (t : trace) :
  Forall (fun ev => match ev with EvTestPath _ _ => False | _ => True end) t ->
  probes t = [].
Proof.
  induction 1 as [|ev t Hev _ IH]; [reflexivity|].
  destruct ev; cbn in *; try exact IH. contradiction.
Qed.

(** C1. Let the probe answer as a fixed predicate.  For every list of
    roots and every system-drive path, the final loop of [mount_os] probes
    the OS marker only under roots whose text without its last character
    differs from the system drive, and its result is the first such root,
    in enumeration order, under which the marker exists, paired with
    [None], or OperatingSystemNotFound when there is none.  The same holds
    of a whole run of [mount_os] for the roots and the system drive that
    its discovery steps yield.  A root that [mount_os] returns is never a
    root whose text without its last character is the system drive reported
    in the run, whether or not the marker exists there. *)
Theorem mount_os_locates_first_marked_root (m : Machine)
    (marker_exists : string -> bool) :
  (forall p (w : World m), conn_test_path m p w = (inr (marker_exists p), w)) ->
  (forall (fs_roots : list string) (system_drive : string) (w : World m),
      outcome (find_os_root (candidate_roots fs_roots system_drive) w) =
        match find (fun x => marker_exists (os_marker x))
                   (candidate_roots fs_roots system_drive) with
        | Some x => inr (x, None)
        | None => inl (mk_exn OperatingSystemNotFound "root partition not found")
        end /\
      (forall x md,
          outcome (find_os_root (candidate_roots fs_roots system_drive) w)
            = inr (x, md) ->
          md = None /\ In x fs_roots /\ PyStr.drop_last x <> system_drive /\
          marker_exists (os_marker x) = true) /\
      (forall p,
          In p (probes (events (find_os_root (candidate_roots fs_roots system_drive) w))) ->
          exists x, In x fs_roots /\ PyStr.drop_last x <> system_drive /\
                    p = os_marker x)) /\
  (forall (max_attempts : nat) (w w5 : World m) (fs_roots : list string)
          (system_drive : string) (t : trace),
      discover_roots max_attempts w = (inr (fs_roots, system_drive), w5, t) ->
      outcome (mount_os max_attempts w) =
        match find (fun x => marker_exists (os_marker x))
                   (candidate_roots fs_roots system_drive) with
        | Some x => inr (x, None)
        | None => inl (mk_exn OperatingSystemNotFound "root partition not found")
        end /\
      probes (events (mount_os max_attempts w))
        = probes (events (find_os_root (candidate_roots fs_roots system_drive) w5))) /\
  (forall (max_attempts : nat) (w : World m) x md,
      outcome (mount_os max_attempts w) = inr (x, md) ->
      md = None /\ marker_exists (os_marker x) = true /\
      exists system_drive,
        In (EvExec "$env:SystemDrive" (inr system_drive))
           (events (mount_os max_attempts w)) /\
        PyStr.drop_last x <> system_drive).
Proof.
  intros Hpure.
  destruct (mount_os_first_marked_facts m marker_exists Hpure) as [Hloop Hret].
  split; [exact Hloop|]. split; [|exact Hret].
  intros max_attempts w w5 fs_roots sd t Hd.
  rewrite mount_os_split, Hd.
  destruct (Hloop fs_roots sd w5) as (Hout & _ & _).
  assert (Hnp : probes t = []).
  { apply probes_none.
    pose proof (discover_roots_commands
                  (fun ev => match ev with EvTestPath _ _ => False | _ => True end)
                  (fun _ _ => I) (fun _ _ _ => I) (fun _ => I) max_attempts w) as Hall.
    rewrite Hd in Hall. exact Hall. }
  destruct (find_os_root (candidate_roots fs_roots sd) w5) as [[r w6] t6].
  unfold outcome, events in *. cbn [fst snd] in *. split; [exact Hout|].
  unfold probes in *. rewrite flat_map_app, Hnp. reflexivity.
Qed.

Lemma mount_os_locates_first_marked_root_witness :
  outcome (find_os_root (m := Sim.machine Scenario.os_on_all)
             (candidate_roots Scenario.roots_cde "C:") (Sim.with_disks []))
    = inr ("D:\", None) /\
  Scenario.marker_on_all (os_marker "C:\") = true /\
  Scenario.marker_on_all (os_marker "E:\") = true /\
  outcome (mount_os (m := Sim.machine Scenario.os_on_all) 5 (Sim.with_disks []))
    = inr ("D:\", None) /\
  probes (events (mount_os (m := Sim.machine Scenario.os_on_all) 5 (Sim.with_disks [])))
    = ["D:\Windows\System32"] /\
  exists system_drive,
    In (EvExec "$env:SystemDrive" (inr system_drive))
       (events (mount_os (m := Sim.machine Scenario.os_on_all) 5 (Sim.with_disks []))) /\
    PyStr.drop_last "D:\" <> system_drive.
Proof.
  destruct (mount_os_locates_first_marked_root (Sim.machine Scenario.os_on_all)
              Scenario.marker_on_all (fun p w => eq_refl)) as (Hloop & Hrun & Hret).
  split; [exact (proj1 (Hloop Scenario.roots_cde "C:" (Sim.with_disks [])))|].
  split; [reflexivity|]. split; [reflexivity|].
  edestruct (Hrun 5 (Sim.with_disks [])) as [Ho Hp]; [vm_compute; reflexivity|].
  split; [rewrite Ho; vm_compute; reflexivity|].
  split; [rewrite Hp; vm_compute; reflexivity|].
  destruct (Hret 5 (Sim.with_disks []) "D:\" None) as (_ & _ & Hsd);
    [rewrite Ho; vm_compute; reflexivity | exact Hsd].
Defined.

(** The filter does not exclude a root that is reported with the very
    text of the system drive: the root C: is kept, since without its last
    character it is not the system drive C:, and it is the root that
    [mount_os] returns. *)
Lemma mount_os_returns_root_named_as_system_drive :
  outcome (mount_os (m := Sim.machine Scenario.root_is_drive_text) 5 (Sim.with_disks []))
    = inr ("C:", None) /\
  In (EvExec "$env:SystemDrive" (inr "C:"))
     (events (mount_os (m := Sim.machine Scenario.root_is_drive_text) 5
                (Sim.with_disks []))) /\
  candidate_roots ["C:"] "C:" = ["C:"].
Proof.
  split; [vm_compute; reflexivity|]. split; [|reflexivity].
  vm_compute. repeat (first [left; reflexivity | right]).
Qed.

(** ** The turns of a pass *)

Section Turns.
Context {m : Machine} {A : Type}.
Variable body : A -> Comp m unit.

Lemma turns_events (l : list A) :
  forall w, events (for_each body l w) = List.concat (map snd (turns body l w)).
Proof.
  induction l as [|x xs IH]; intros w; [reflexivity|].
  rewrite for_each_cons. cbn [turns].
  destruct (body x w) as [[[e|u] w1] t1].
  - cbn. now rewrite app_nil_r.
  - specialize (IH w1).
    destruct (for_each body xs w1) as [[r w2] t2].
    unfold events in *. cbn [snd map List.concat] in *. now rewrite IH.
Qed.

Lemma turns_prefix (l : list A) :
  forall w,
    exists rest,
      l = map fst (turns body l w) ++ rest /\
      (outcome (for_each body l w) = inr tt -> rest = []).
Proof.
  induction l as [|x xs IH]; intros w.
  - exists []. split; reflexivity.
  - rewrite for_each_cons. cbn [turns].
    destruct (body x w) as [[[e|u] w1] t1].
    + exists xs. split; [reflexivity | discriminate].
    + destruct (IH w1) as (rest & Hl & Hr).
      destruct (for_each body xs w1) as [[r w2] t2].
      unfold outcome in *. cbn [fst map app] in *.
      exists rest. split; [now rewrite <- Hl | exact Hr].
Qed.

Lemma turns_forall (P : A -> trace -> Prop) (l : list A) :
  (forall x w, P x (events (body x w))) ->
  forall w, Forall (fun xt => P (fst xt) (snd xt)) (turns body l w).
Proof.
  intros HP. induction l as [|x xs IH]; intros w; cbn [turns]; [constructor|].
  specialize (HP x w).
  destruct (body x w) as [[[e|u] w1] t1]; unfold events in HP; cbn [snd] in HP.
  - repeat constructor. exact HP.
  - constructor; [exact HP | apply IH].
Qed.

End Turns.

Lemma run_script_events_nonempty {m : Machine} (script : string) (w : World m) :
  events (_run_diskpart_script script w) <> [].
Proof.
  unfold _run_diskpart_script. unfold_comp. unfold events.
  destruct (conn_exec_ps_command m "$env:TEMP" w) as [[e|tempdir] w1];
    [cbn; discriminate|].
  destruct (uuid4 m w1) as [u w2].
  destruct (conn_write_file m _ script w2) as [[e|[]] w3]; [cbn; discriminate|].
  destruct (conn_exec_ps_command m _ w3) as [r w4]. cbn. discriminate.
Qed.

Lemma service_candidate_events_nonempty {m : Machine} (status fmt : string)
    (soe : bool) (logmsg : string) (skip : list string) (d : string) (w : World m) :
  events (service_candidate status fmt soe logmsg skip d w) <> [].
Proof.
  rewrite service_candidate_run.
  destruct (PyStr.mem d skip); [cbn; discriminate|].
  pose proof (run_script_events_nonempty disk_list_script w) as Hne.
  destruct (_run_diskpart_script disk_list_script w) as [[[e|out] w1] t1];
    unfold events in *; cbn [snd] in *; [exact Hne|].
  destruct (existsb _ _); [|exact Hne].
  destruct (service_now status fmt soe logmsg d w1) as [[r w2] t2]. cbn [snd].
  intros H. apply app_eq_nil in H. tauto.
Qed.

(** C10. In a pass of [_service_disks_with_status] whose first listing
    succeeds, the candidates are those that this one listing yields, one
    per matching line; the events of the pass are those of the listing, one
    record, and then the events of the turns of the candidates, taken in
    listing order up to the first turn that raises, and all of them when
    the pass returns; a turn has events, announces at most its own
    candidate, and submits at most one service script, that of its own
    candidate.  Over any pass the announced disks form an order-preserving
    sub-list of the candidates of the first listing, and the service script
    of a disk is submitted at most as many times as that listing names the
    disk, hence at most once for a disk that it names once. *)
Theorem candidates_fixed_ordered_once (m : Machine)
    (status fmt : string) (skip_on_error : bool) (logmsg_fmt : string)
    (disk_ids_to_skip : option (list string)) (w : World m) :
  (forall (w0 : World m) (out : string) (t0 : trace),
      _run_diskpart_script disk_list_script w = (inr out, w0, t0) ->
      initial_candidates status w = servicable_ids status (listing_lines out) /\
      events (_service_disks_with_status status fmt skip_on_error logmsg_fmt
                disk_ids_to_skip w)
        = t0 ++ pass_record status (initial_candidates status w) out
             :: List.concat (map snd
                  (turns (service_candidate status fmt skip_on_error logmsg_fmt
                            (skip_list disk_ids_to_skip))
                     (initial_candidates status w) w0)) /\
      (exists rest,
          initial_candidates status w
            = map fst (turns (service_candidate status fmt skip_on_error logmsg_fmt
                                (skip_list disk_ids_to_skip))
                         (initial_candidates status w) w0) ++ rest /\
          (outcome (_service_disks_with_status status fmt skip_on_error logmsg_fmt
                      disk_ids_to_skip w) = inr tt -> rest = [])) /\
      Forall
        (fun turn =>
           snd turn <> [] /\
           (announced (snd turn) = [] \/ announced (snd turn) = [fst turn]) /\
           iteration_scripts fmt (skip_list disk_ids_to_skip) (fst turn)
             (scripts (snd turn)))
        (turns (service_candidate status fmt skip_on_error logmsg_fmt
                  (skip_list disk_ids_to_skip))
           (initial_candidates status w) w0)) /\
  Subseq
    (announced (events (_service_disks_with_status status fmt skip_on_error
                          logmsg_fmt disk_ids_to_skip w)))
    (initial_candidates status w) /\
  (forall d, count_occ string_dec
               (announced (events (_service_disks_with_status status fmt skip_on_error
                                     logmsg_fmt disk_ids_to_skip w))) d
             <= count_occ string_dec (initial_candidates status w) d) /\
  (forall d script,
      PyStr.format1 fmt d = Some script ->
      script <> disk_list_script ->
      count_occ string_dec
        (scripts (events (_service_disks_with_status status fmt skip_on_error
                            logmsg_fmt disk_ids_to_skip w))) script
      <= count_occ string_dec (initial_candidates status w) d).
Proof.
  split; [|exact (service_pass_bounds m status fmt skip_on_error logmsg_fmt
                    disk_ids_to_skip w)].
  intros w0 out t0 Hl.
  assert (Hids : initial_candidates status w = servicable_ids status (listing_lines out))
    by (unfold initial_candidates; rewrite Hl; reflexivity).
  split; [exact Hids|]. rewrite Hids.
  set (ids := servicable_ids status (listing_lines out)).
  set (body := service_candidate status fmt skip_on_error logmsg_fmt
                 (skip_list disk_ids_to_skip)).
  rewrite service_pass_run, Hl. cbv zeta. fold ids. unfold service_loop.
  fold (skip_list disk_ids_to_skip). fold body.
  pose proof (turns_events body ids w0) as Hev.
  destruct (turns_prefix body ids w0) as (rest & Hpre & Hrest).
  destruct (for_each body ids w0) as [[r w2] t2].
  unfold events, outcome in *. cbn [fst snd] in *.
  split; [unfold pass_record; rewrite Hev; reflexivity|].
  split; [exists rest; split; assumption|].
  apply (turns_forall body
           (fun d t => t <> [] /\ (announced t = [] \/ announced t = [d]) /\
                       iteration_scripts fmt (skip_list disk_ids_to_skip) d (scripts t))).
  intros d w1. unfold body.
  destruct (service_candidate_trace status fmt skip_on_error logmsg_fmt
              (skip_list disk_ids_to_skip) d w1) as [Ha Hs].
  split; [apply service_candidate_events_nonempty|].
  split; [tauto | exact Hs].
Qed.

Lemma candidates_fixed_ordered_once_witness :
  exists (w0 : Sim.world) (out : string) (t0 : trace),
    _run_diskpart_script (m := Sim.machine Sim.quiet) disk_list_script
      Scenario.foreign_pair = (inr out, w0, t0) /\
    initial_candidates (m := Sim.machine Sim.quiet) "Foreign" Scenario.foreign_pair
      = ["0"; "1"] /\
    map fst (turns (service_candidate (m := Sim.machine Sim.quiet) "Foreign"
                      Scenario.clear_readonly_fmt false default_logmsg_fmt
                      (skip_list None))
               (initial_candidates (m := Sim.machine Sim.quiet) "Foreign"
                  Scenario.foreign_pair) w0)
      = ["0"; "1"] /\
    map (fun turn => scripts (snd turn))
        (turns (service_candidate (m := Sim.machine Sim.quiet) "Foreign"
                  Scenario.clear_readonly_fmt false default_logmsg_fmt
                  (skip_list None))
           (initial_candidates (m := Sim.machine Sim.quiet) "Foreign"
              Scenario.foreign_pair) w0)
      = [[disk_list_script; clear_readonly_script "0"];
         [disk_list_script; clear_readonly_script "1"]] /\
    scripts (events (_service_disks_with_status (m := Sim.machine Sim.quiet)
                       "Foreign" Scenario.clear_readonly_fmt false default_logmsg_fmt
                       None Scenario.foreign_pair))
      = [disk_list_script;
         disk_list_script; clear_readonly_script "0";
         disk_list_script; clear_readonly_script "1"] /\
    announced (events (_service_disks_with_status (m := Sim.machine Sim.quiet)
                         "Foreign" Scenario.clear_readonly_fmt false default_logmsg_fmt
                         None Scenario.foreign_pair))
      = ["0"; "1"] /\
    count_occ string_dec
      (scripts (events (_service_disks_with_status (m := Sim.machine Sim.quiet)
                          "Foreign" Scenario.clear_readonly_fmt false default_logmsg_fmt
                          None Scenario.foreign_pair)))
      (clear_readonly_script "0")
    <= count_occ string_dec
         (initial_candidates (m := Sim.machine Sim.quiet) "Foreign"
            Scenario.foreign_pair) "0".
Proof.
  destruct (candidates_fixed_ordered_once (Sim.machine Sim.quiet)
              "Foreign" Scenario.clear_readonly_fmt false default_logmsg_fmt None
              Scenario.foreign_pair) as (Hturns & _ & _ & Hcount).
  edestruct Hturns as (_ & Hev & (rest & Hpre & Hrest) & _).
  - vm_compute. reflexivity.
  - do 3 eexists.
    split; [vm_compute; reflexivity|].
    split; [vm_compute; reflexivity|].
    split.
    { rewrite (Hrest ltac:(vm_compute; reflexivity)), app_nil_r in Hpre.
      rewrite <- Hpre. vm_compute. reflexivity. }
    split; [vm_compute; reflexivity|].
    split; [rewrite Hev; vm_compute; reflexivity|].
    split; [rewrite Hev; vm_compute; reflexivity|].
    apply (Hcount "0" (clear_readonly_script "0")); [reflexivity | discriminate].
Defined.

(** A service script can run more than once in a pass: on a listing
    that names a disk on two lines the disk is a candidate twice, and when
    the operation leaves its status as it was, its service script is
    submitted twice. *)
Lemma service_script_runs_twice_for_disk_listed_twice :
  initial_candidates (m := Sim.machine Sim.quiet) "Foreign" Scenario.twice_listed
    = ["1"; "1"] /\
  scripts (events (_set_foreign_disks_rw_mode (m := Sim.machine Sim.quiet)
                     Scenario.twice_listed))
    = [disk_list_script; disk_list_script; clear_readonly_script "1";
       disk_list_script; clear_readonly_script "1"] /\
  ~ (count_occ string_dec
       (scripts (events (_set_foreign_disks_rw_mode (m := Sim.machine Sim.quiet)
                           Scenario.twice_listed)))
       (clear_readonly_script "1") <= 1).
Proof.
  assert (Hs : scripts (events (_set_foreign_disks_rw_mode (m := Sim.machine Sim.quiet)
                                  Scenario.twice_listed))
               = [disk_list_script; disk_list_script; clear_readonly_script "1";
                  disk_list_script; clear_readonly_script "1"])
    by (vm_compute; reflexivity).
  split; [vm_compute; reflexivity|]. split; [exact Hs|].
  rewrite Hs. vm_compute. lia.
Qed.
